(** * Vehicle insurance risk assessment (main3.cpp)

    A shallow embedding of the console program of [main3.cpp]: the
    [Vehicle] value class, the [InsuranceRisk] interface with its single
    implementation [CarRiskCalculator], the factory, the
    [InsuranceRiskSystem] with its ordered [map<string, RiskLevel>], the
    report printer and the two validating input loops of [main].

    Numbers.  The program computes in [int] and [double].  An [int] is a
    [Z] with the 32-bit two's-complement wrap-around written out.  The
    [double] code is written once, over the interface [DoubleOps], and
    read at two instances:
    - [binary64]: Rocq's primitive floats, that is IEEE 754 binary64 with
      round-to-nearest-even, every operation rounded on its own (what the
      program computes on the usual targets);
    - [exact]: the rationals [Q], that is the same formula without any
      rounding (what the arithmetic of the specification talks about). *)

From Stdlib Require Import ZArith QArith Bool List Lia Lqa.
From Stdlib Require Import Ascii String.
From Stdlib Require Import Floats Uint63.
From Stdlib Require Import Sorted OrderedTypeEx.
Import ListNotations.

Set Implicit Arguments.

(** ** Machine integers *)

Definition INT_MIN : Z := - 2 ^ 31.
Definition INT_MAX : Z := 2 ^ 31 - 1.

Definition int_range (z : Z) : Prop := (INT_MIN <= z <= INT_MAX)%Z.

(** The value an [int] computation yields on a two's-complement machine. *)
Definition int_wrap (z : Z) : Z := ((z + 2 ^ 31) mod 2 ^ 32 - 2 ^ 31)%Z.

Definition int_sub (a b : Z) : Z := int_wrap (a - b).

(** ** The [double] interface *)

Declare Scope dbl_scope.
Delimit Scope dbl_scope with dbl.

Class DoubleOps (D : Type) : Type := {
  (** the conversion [int -> double] *)
  of_int : Z -> D;
  (** a decimal literal of the source text, such as [0.8] *)
  dec : Q -> D;
  dadd : D -> D -> D;
  dmul : D -> D -> D;
  (** [<], the only comparison the program uses *)
  dltb : D -> D -> bool;
  (** [<=], used in statements only *)
  dleb : D -> D -> bool
}.

Infix "+" := dadd : dbl_scope.
Infix "*" := dmul : dbl_scope.
Infix "<?" := dltb : dbl_scope.
Infix "<=?" := dleb : dbl_scope.

(** *** IEEE 754 binary64 *)

Module B64.

Definition of_int (z : Z) : float :=
  if (z <? 0)%Z
  then PrimFloat.opp (PrimFloat.of_uint63 (Uint63.of_Z (- z)))
  else PrimFloat.of_uint63 (Uint63.of_Z z).

(** A decimal literal [n / 10^k] is the binary64 number nearest to it:
    numerator and denominator are small integers, hence exact, and the
    division rounds correctly. *)
Definition dec (q : Q) : float :=
  PrimFloat.div (of_int (Qnum q)) (of_int (Zpos (Qden q))).

Definition is_nan (x : float) : bool := negb (PrimFloat.eqb x x).

End B64.

#[export] Instance binary64 : DoubleOps float := {|
  of_int := B64.of_int;
  dec := B64.dec;
  dadd := PrimFloat.add;
  dmul := PrimFloat.mul;
  dltb := PrimFloat.ltb;
  dleb := PrimFloat.leb
|}.

(** *** Exact rational arithmetic *)

Module Exact.

Definition ltb (x y : Q) : bool := negb (Qle_bool y x).

End Exact.

#[export] Instance exact : DoubleOps Q := {|
  of_int := inject_Z;
  dec := fun q => q;
  dadd := Qplus;
  dmul := Qmult;
  dltb := Exact.ltb;
  dleb := Qle_bool
|}.

(** ** Data types *)

Inductive RiskLevel : Set := LOW | MEDIUM | HIGH.

Inductive VehicleType : Set := CAR | TRUCK | MOTORCYCLE.

Record Vehicle : Set := mkVehicle {
  getMake : string;
  getModel : string;
  getYear : Z;
  getType : VehicleType;
  getAccidentCount : Z;
  getIsCommercial : bool
}.

(** ** The risk calculator *)

(** The abstract class [InsuranceRisk]: an object is the table of its
    three virtual methods. *)
Record InsuranceRisk (D : Type) : Type := {
  calculateBaseRisk : D;
  applyModifiers : D -> D;
  calculateTotalRisk : D
}.

Module CarRiskCalculator.
Section Methods.
Context {D : Type} `{DoubleOps D}.
Local Open Scope dbl_scope.

Variable vehicle : Vehicle.

Definition BASE_RISK : D := dec 0.8.

Definition calculateBaseRisk : D :=
  BASE_RISK * (if getIsCommercial vehicle then dec 1.5 else dec 1.0).

Definition applyModifiers (risk : D) : D :=
  risk
  * (dec 1.0 + of_int (int_sub 2024 (getYear vehicle)) * dec 0.05)
  * (dec 1.0 + of_int (getAccidentCount vehicle) * dec 0.15).

Definition calculateTotalRisk : D := applyModifiers calculateBaseRisk.

(** The object: [CarRiskCalculator(vehicle)] seen as an [InsuranceRisk]. *)
Definition new : InsuranceRisk D :=
  Build_InsuranceRisk calculateBaseRisk applyModifiers calculateTotalRisk.

End Methods.
End CarRiskCalculator.

Module RiskCalculatorFactory.

Definition createCalculator {D : Type} `{DoubleOps D} (vehicle : Vehicle)
  : InsuranceRisk D :=
  CarRiskCalculator.new vehicle.

End RiskCalculatorFactory.

(** ** Categories *)

Section Categorize.
Context {D : Type} `{DoubleOps D}.
Local Open Scope dbl_scope.

Definition categorizeRisk (score : D) : RiskLevel :=
  if score <? dec 1.2 then LOW
  else if score <? dec 1.8 then MEDIUM
  else HIGH.

End Categorize.

(** ** The ordered map [map<string, RiskLevel>]

    A [std::map] keeps its entries in ascending key order ([std::less] on
    [std::string]: lexicographic on the characters, compared as unsigned
    bytes) and an iteration visits them in that order.  The model is the
    sequence of entries as an iteration sees it; the tree behind it is left
    out. *)

Definition string_lt (a b : string) : Prop := (a ?= b)%string = Lt.

Module StdMap.

Definition t : Set := list (string * RiskLevel).

Definition empty : t := [].

Definition keys (m : t) : list string := map fst m.

(** The class invariant of the container. *)
Definition ordered (m : t) : Prop := StronglySorted string_lt (keys m).

(** [m.find(k)], as the mapped value. *)
Fixpoint find (k : string) (m : t) : option RiskLevel :=
  match m with
  | [] => None
  | (k', v') :: rest => if String.eqb k k' then Some v' else find k rest
  end.

(** [m[k]] as far as it changes the container: an absent key gets a
    value-initialised entry ([RiskLevel()] is the enumerator 0, [LOW]) at
    its place in the order; a present key changes nothing. *)
Fixpoint subscript (k : string) (m : t) : t :=
  match m with
  | [] => [(k, LOW)]
  | (k', v') :: rest =>
      match (k ?= k')%string with
      | Lt => (k, LOW) :: (k', v') :: rest
      | Eq => (k', v') :: rest
      | Gt => (k', v') :: subscript k rest
      end
  end.

(** Assignment through the reference that [m[k]] returned. *)
Fixpoint assign (k : string) (v : RiskLevel) (m : t) : t :=
  match m with
  | [] => []
  | (k', v') :: rest =>
      if String.eqb k k' then (k', v) :: rest
      else (k', v') :: assign k v rest
  end.

(** The statement [m[k] = v;]. *)
Definition set (k : string) (v : RiskLevel) (m : t) : t :=
  assign k v (subscript k m).

(** What the specification calls an upsert, in one pass: the entry is
    overwritten where the key is found, and put in at its place in the
    order where it is not.  ([set_upsert] below: this is what [set]
    does.) *)
Fixpoint upsert (k : string) (v : RiskLevel) (m : t) : t :=
  match m with
  | [] => [(k, v)]
  | (k', v') :: rest =>
      match (k ?= k')%string with
      | Lt => (k, v) :: (k', v') :: rest
      | Eq => (k', v) :: rest
      | Gt => (k', v') :: upsert k v rest
      end
  end.

End StdMap.

(** ** The assessment system *)

Record InsuranceRiskSystem : Set := {
  riskCategories : StdMap.t
}.

(** [InsuranceRiskSystem system;] *)
Definition new_system : InsuranceRiskSystem :=
  {| riskCategories := StdMap.empty |}.

Definition vehicleId (vehicle : Vehicle) : string :=
  (getMake vehicle ++ " " ++ getModel vehicle)%string.

Section System.
Context {D : Type} `{DoubleOps D}.

Definition assessVehicleRisk (system : InsuranceRiskSystem)
    (vehicle : Vehicle) : InsuranceRiskSystem :=
  let calculator := RiskCalculatorFactory.createCalculator vehicle in
  let risk := calculateTotalRisk calculator in
  let vehicleId := vehicleId vehicle in
  {| riskCategories :=
       StdMap.set vehicleId (categorizeRisk risk) (riskCategories system) |}.

(** The category a vehicle is given, and a whole session of assessments. *)
Definition category (vehicle : Vehicle) : RiskLevel :=
  categorizeRisk
    (calculateTotalRisk (RiskCalculatorFactory.createCalculator vehicle)).

Definition assessAll (vehicles : list Vehicle) : InsuranceRiskSystem :=
  fold_left assessVehicleRisk vehicles new_system.

End System.

(** The arithmetic is named at each use: the results do not show it. *)
Arguments assessVehicleRisk D {_} system vehicle.
Arguments category D {_} vehicle.
Arguments assessAll D {_} vehicles.

(** ** The report *)

Definition nl : string := String "010"%char EmptyString.

Definition riskLevelStr (level : RiskLevel) : string :=
  match level with
  | LOW => "LOW"
  | MEDIUM => "MEDIUM"
  | HIGH => "HIGH"
  end.

(** What one turn of the [for] loop sends to [cout]. *)
Definition printEntry (risk : string * RiskLevel) : string :=
  ("Vehicle: " ++ fst risk ++ nl ++ "Risk Level: "
     ++ riskLevelStr (snd risk) ++ nl)%string.

(** [printRiskAssessment]: the text appended to [cout]. *)
Definition printRiskAssessment (system : InsuranceRiskSystem) (cout : string)
  : string :=
  fold_left (fun out risk => (out ++ printEntry risk)%string)
            (riskCategories system) cout.

(** ** Console input

    [cin] as far as [main] uses it: the characters not yet read and the
    [failbit].  ([eofbit] needs no field: it is set only once the buffer is
    empty, and an extraction from an empty buffer fails by itself.) *)

Module Cin.

Record istream : Set := {
  buffer : string;
  failbit : bool
}.

Definition isspace (c : ascii) : bool :=
  let n := N_of_ascii c in
  ((9 <=? n) && (n <=? 13) || (n =? 32))%N.

Definition digit (c : ascii) : option Z :=
  let n := Z.of_N (N_of_ascii c) in
  if ((48 <=? n) && (n <=? 57))%Z then Some (n - 48)%Z else None.

Fixpoint skipws (s : string) : string :=
  match s with
  | String c rest => if isspace c then skipws rest else s
  | EmptyString => s
  end.

(** The longest run of decimal digits at the head of [s]: its value, if
    there is a digit at all, and what follows it. *)
Fixpoint digits (s : string) (acc : option Z) : option Z * string :=
  match s with
  | String c rest =>
      match digit c with
      | Some d =>
          digits rest
            (Some (10 * match acc with Some a => a | None => 0 end + d)%Z)
      | None => (acc, s)
      end
  | EmptyString => (acc, s)
  end.

(** [cin >> x] for an [int x].  [Some v]: [v] was stored and the stream
    is good.  [None]: [failbit] is set (nothing to read, no digit, or a
    number that no [int] holds); [main] never looks at [x] then. *)
Definition extract_int (inp : istream) : option Z * istream :=
  if failbit inp then (None, inp)
  else
    let s := skipws (buffer inp) in
    let '(negative, s) :=
      match s with
      | String "-"%char rest => (true, rest)
      | String "+"%char rest => (false, rest)
      | _ => (false, s)
      end in
    match digits s None with
    | (Some n, rest) =>
        let v := if negative then (- n)%Z else n in
        if ((INT_MIN <=? v) && (v <=? INT_MAX))%Z
        then (Some v, {| buffer := rest; failbit := false |})
        else (None, {| buffer := rest; failbit := true |})
    | (None, rest) => (None, {| buffer := rest; failbit := true |})
    end.

(** [cin.clear()] *)
Definition clear (inp : istream) : istream :=
  {| buffer := buffer inp; failbit := false |}.

Fixpoint drop_line (s : string) : string :=
  match s with
  | String c rest => if Ascii.eqb c "010"%char then rest else drop_line rest
  | EmptyString => EmptyString
  end.

(** [cin.ignore(numeric_limits<streamsize>::max(), '\n')] *)
Definition ignore_line (inp : istream) : istream :=
  if failbit inp then inp
  else {| buffer := drop_line (buffer inp); failbit := false |}.

End Cin.

(** The console: what is left of the input, and the text sent to [cout]. *)
Record console : Set := {
  cin : Cin.istream;
  cout : string
}.

(** ** The validating input loops of [main]

    Both have the shape
    [while (!(cin >> x) || rejected(x)) { cin.clear(); cin.ignore(..); cout << msg; }].
    The loop runs as long as the input makes it run; [fuel] bounds the
    number of turns, and [None] is a loop that has not ended within it. *)

Section InputLoop.

(** the part of the condition that follows [!(cin >> x) ||] *)
Variable rejected : Z -> bool.
Variable msg : string.

(** the whole condition, on the outcome of [cin >> x] *)
Definition loops_on (r : option Z) : bool :=
  match r with
  | None => true
  | Some x => rejected x
  end.

(** the body, from the stream that the failed condition left *)
Definition reprompt (io : console) : console :=
  {| cin := Cin.ignore_line (Cin.clear (snd (Cin.extract_int (cin io))));
     cout := (cout io ++ msg)%string |}.

Fixpoint input_loop (fuel : nat) (io : console) : option (Z * console) :=
  match fuel with
  | O => None
  | S fuel' =>
      match Cin.extract_int (cin io) with
      | (Some x, cin') =>
          if rejected x then input_loop fuel' (reprompt io)
          else Some (x, {| cin := cin'; cout := cout io |})
      | (None, _) => input_loop fuel' (reprompt io)
      end
  end.

End InputLoop.

Definition year_message : string :=
  "Invalid year. Please enter a year between 1900 and 2024: ".

(** [year < 1970 || year > 2024] *)
Definition year_rejected (year : Z) : bool :=
  ((year <? 1970) || (year >? 2024))%Z.

(** lines 172-176 *)
Definition read_year : nat -> console -> option (Z * console) :=
  input_loop year_rejected year_message.

Definition accident_message : string :=
  "Invalid input. Please enter a non-negative number: ".

(** [accidentCount < 0] *)
Definition accident_rejected (accidentCount : Z) : bool :=
  (accidentCount <? 0)%Z.

(** lines 185-189 *)
Definition read_accident_count : nat -> console -> option (Z * console) :=
  input_loop accident_rejected accident_message.

(** ** Vocabulary of the statements *)

(** What the input loops of [main] let through. *)
Definition validated (v : Vehicle) : Prop :=
  (1970 <= getYear v <= 2024)%Z /\ (0 <= getAccidentCount v)%Z.

(** The same vehicle with another commercial flag, another type. *)
Definition with_commercial (comm : bool) (v : Vehicle) : Vehicle :=
  mkVehicle (getMake v) (getModel v) (getYear v) (getType v)
            (getAccidentCount v) comm.

Definition with_type (t : VehicleType) (v : Vehicle) : Vehicle :=
  mkVehicle (getMake v) (getModel v) (getYear v) t
            (getAccidentCount v) (getIsCommercial v).

Section Factors.
Context {D : Type} `{DoubleOps D}.
Local Open Scope dbl_scope.

(** The score a vehicle gets, through the factory and the virtual call. *)
Definition score (v : Vehicle) : D :=
  calculateTotalRisk (RiskCalculatorFactory.createCalculator v).

(** The two factors of [applyModifiers], under the names of the
    specification. *)
Definition ageFactor (v : Vehicle) : D :=
  dec 1.0 + of_int (int_sub 2024 (getYear v)) * dec 0.05.

Definition accidentFactor (v : Vehicle) : D :=
  dec 1.0 + of_int (getAccidentCount v) * dec 0.15.

(** The bands of the categorizer as the specification words them. *)
Definition bands (s : D) (level : RiskLevel) : Prop :=
  match level with
  | LOW => (s <? dec 1.2) = true
  | MEDIUM => (dec 1.2 <=? s) = true /\ (s <? dec 1.8) = true
  | HIGH => (dec 1.8 <=? s) = true
  end.

Definition categorizer_spec (s : D) : Prop :=
  forall level, categorizeRisk s = level <-> bands s level.

End Factors.

(** Non-negative binary64 data: [+0], a positive number or [+oo]; not a
    NaN. *)
Definition sf_nonneg (x : spec_float) : Prop :=
  match x with
  | S754_zero false | S754_infinity false | S754_finite false _ _ => True
  | _ => False
  end.

Definition sf_pos_finite (x : spec_float) : bool :=
  match x with
  | S754_finite false _ _ => true
  | _ => false
  end.

(** A shift register with a non-negative mantissa. *)
Definition shr_nonneg (mrs : shr_record) : Prop := (0 <= shr_m mrs)%Z.

(** A datum of sign [sx] that is not a NaN. *)
Definition sf_signed (sx : bool) (x : spec_float) : Prop :=
  match x with
  | S754_zero s | S754_infinity s | S754_finite s _ _ => s = sx
  | S754_nan => False
  end.

Definition nonneg (x : float) : Prop := sf_nonneg (Prim2SF x).

(** What goes into the last multiplication of [applyModifiers]: the base
    risk times the age factor. *)
Definition risk_after_age (comm : bool) (year : Z) : float :=
  (dec 0.8 * (if comm then dec 1.5 else dec 1.0)
   * (dec 1.0 + of_int (int_sub 2024 year) * dec 0.05))%dbl.

Definition RiskLevel_eqb (a b : RiskLevel) : bool :=
  match a, b with
  | LOW, LOW | MEDIUM, MEDIUM | HIGH, HIGH => true
  | _, _ => false
  end.

(** Do binary64 and exact arithmetic put the vehicle in the same category? *)
Definition same_category (comm : bool) (year accidentCount : Z) : bool :=
  let v := mkVehicle "" "" year CAR accidentCount comm in
  RiskLevel_eqb (category float v) (category Q v).

(** The text of a report on the given entries, in their order. *)
Definition report (entries : list (string * RiskLevel)) : string :=
  fold_right (fun risk text => (printEntry risk ++ text)%string)
             ""%string entries.

(** [n] copies of a message, one after the other. *)
Definition times (n : nat) (msg : string) : string :=
  Nat.iter n (String.append msg) ""%string.

(** The outcome of the next [cin >> x] on a console. *)
Definition attempt (io : console) : option Z :=
  fst (Cin.extract_int (cin io)).

(** A console on which [s] has been typed, and nothing printed yet. *)
Definition typed (s : string) : console :=
  {| cin := {| Cin.buffer := s; Cin.failbit := false |}; cout := ""%string |}.

Definition typed_lines (l : list string) : console :=
  typed (fold_right (fun a b => (a ++ nl ++ b)%string) ""%string l).

(** The year loop on typed lines: the year it ends with, if it ends within
    [fuel] turns, and what it has printed. *)
Definition session (fuel : nat) (l : list string) : option Z * string :=
  match read_year fuel (typed_lines l) with
  | Some (year, io) => (Some year, cout io)
  | None => (None, ""%string)
  end.

(** Scenario B of the specification, and a vehicle from 1970. *)
Definition ford_f150 : Vehicle :=
  mkVehicle "Ford" "F150" 2014 TRUCK 2 true.

Definition beetle_1970 : Vehicle :=
  mkVehicle "VW" "Beetle" 1970 CAR 0 false.

(** Scenario A, and a second Ford F150 with other attributes. *)
Definition toyota_corolla : Vehicle :=
  mkVehicle "Toyota" "Corolla" 2024 CAR 0 false.

Definition ford_f150_new : Vehicle :=
  mkVehicle "Ford" "F150" 2024 TRUCK 0 false.

(** ** More of the console: characters and lines *)

Module CinText.
Import Cin.

(** [cin >> c] for a [char c]: white space is skipped and one character
    is taken.  [None]: there is none; [failbit] is set and [c] keeps what
    it held. *)
Definition extract_char (inp : istream) : option ascii * istream :=
  if failbit inp then (None, inp)
  else
    match skipws (buffer inp) with
    | String c rest => (Some c, {| buffer := rest; failbit := false |})
    | EmptyString => (None, {| buffer := EmptyString; failbit := true |})
    end.

(** The characters before the first newline, and those after it. *)
Fixpoint split_line (s : string) : string * string :=
  match s with
  | String c rest =>
      if Ascii.eqb c "010"%char then (EmptyString, rest)
      else let (line, tail) := split_line rest in (String c line, tail)
  | EmptyString => (EmptyString, EmptyString)
  end.

(** [getline(cin, str)] on a [str] that is empty before the call, as it
    is in [main]: the line without its newline.  With nothing left to
    read, [str] stays empty and [failbit] is set. *)
Definition getline (inp : istream) : string * istream :=
  if failbit inp then (EmptyString, inp)
  else
    match buffer inp with
    | EmptyString => (EmptyString, {| buffer := EmptyString; failbit := true |})
    | s =>
        let (line, tail) := split_line s in
        (line, {| buffer := tail; failbit := false |})
    end.

End CinText.

(** [tolower] in the "C" locale. *)
Definition tolower (c : ascii) : ascii :=
  let n := N_of_ascii c in
  if ((65 <=? n) && (n <=? 90))%N then ascii_of_N (n + 32) else c.

(** [cout << s] *)
Definition put (s : string) (io : console) : console :=
  {| cin := cin io; cout := (cout io ++ s)%string |}.

(** ** [getVehicleTypeInput] *)

Definition type_prompt : string :=
  ("Select Vehicle Type:" ++ nl ++ "1. Car" ++ nl ++ "2. Truck" ++ nl
     ++ "3. Motorcycle" ++ nl ++ "Enter your choice (1-3): ")%string.

Definition type_invalid_input : string :=
  "Invalid input. Please enter 1, 2, or 3: ".

Definition type_invalid_choice : string :=
  "Invalid choice. Please enter 1, 2, or 3: ".

(** The [while (true)] loop; [None] is a loop that has not ended within
    [fuel] turns. *)
Fixpoint type_loop (fuel : nat) (io : console)
  : option (VehicleType * console) :=
  match fuel with
  | O => None
  | S fuel' =>
      let (typeChoice, cin') := Cin.extract_int (cin io) in
      if Cin.failbit cin' then
        type_loop fuel'
          (put type_invalid_input
             {| cin := Cin.ignore_line (Cin.clear cin'); cout := cout io |})
      else
        match typeChoice with
        | Some 1%Z => Some (CAR, {| cin := cin'; cout := cout io |})
        | Some 2%Z => Some (TRUCK, {| cin := cin'; cout := cout io |})
        | Some 3%Z => Some (MOTORCYCLE, {| cin := cin'; cout := cout io |})
        | _ =>
            type_loop fuel'
              (put type_invalid_choice {| cin := cin'; cout := cout io |})
        end
  end.

Definition getVehicleTypeInput (fuel : nat) (io : console)
  : option (VehicleType * console) :=
  type_loop fuel (put type_prompt io).

(** ** [getYesNoInput] *)

Definition yes_no_invalid : string := "Invalid input. Please enter y or n: ".

(** What a call that reads a local variable has come to.  It has returned;
    or it has read the variable before anything was written to it, which
    the language leaves undefined, so that nothing is said of what comes
    next; or it has not ended within the turns allowed. *)
Inductive run (A : Type) : Type :=
| Returned (a : A)
| Undefined
| Pending.

Arguments Returned {A} a.
Arguments Undefined {A}.
Arguments Pending {A}.

(** The [while (true)] loop.  [response] is [None] as long as the
    variable has not been written: [char response;] is not initialised,
    and an extraction that fails leaves it as it is.  A turn that reads it
    in this state is [Undefined]; [Pending] is a loop that has not ended
    within [fuel] turns. *)
Fixpoint yes_no_loop (fuel : nat) (response : option ascii) (io : console)
  : run (bool * console) :=
  match fuel with
  | O => Pending
  | S fuel' =>
      let (read, cin1) := CinText.extract_char (cin io) in
      let response :=
        match read with
        | Some c => Some c
        | None => response
        end in
      let cin2 := Cin.ignore_line cin1 in
      match response with
      | None => Undefined
      | Some c =>
          let c := tolower c in
          if Ascii.eqb c "y"%char
          then Returned (true, {| cin := cin2; cout := cout io |})
          else if Ascii.eqb c "n"%char
          then Returned (false, {| cin := cin2; cout := cout io |})
          else
            yes_no_loop fuel' (Some c)
              (put yes_no_invalid {| cin := cin2; cout := cout io |})
      end
  end.

Definition getYesNoInput (prompt : string) (fuel : nat) (io : console)
  : run (bool * console) :=
  yes_no_loop fuel None (put (prompt ++ " (y/n): ")%string io).

(** ** [main] *)

(** Sequencing: of a call, and of one of the loops that read no variable
    before writing it and so can only return or go on. *)
Notation "' p <- e ;; k" :=
  (match e with
   | Returned p => k
   | Undefined => Undefined
   | Pending => Pending
   end)
  (at level 61, p pattern, e at next level, right associativity).

Notation "' p <~ e ;; k" :=
  (match e with
   | Some p => k
   | None => Pending
   end)
  (at level 61, p pattern, e at next level, right associativity).

(** The body of the [do ... while]: the new record, the console, and
    whether [continueInput == 'y'].  Each inner loop may take [fuel]
    turns. *)
Definition main_body (fuel : nat) (system : InsuranceRiskSystem)
    (io : console) : run (InsuranceRiskSystem * console * bool) :=
  let io := put "Enter vehicle make: " io in
  let (make, cin1) := CinText.getline (cin io) in
  let io := put "Enter vehicle model: " {| cin := cin1; cout := cout io |} in
  let (model, cin2) := CinText.getline (cin io) in
  let io := put "Enter vehicle year: " {| cin := cin2; cout := cout io |} in
  '(year, io) <~ read_year fuel io ;;
  let io := {| cin := Cin.ignore_line (cin io); cout := cout io |} in
  '(type, io) <~ getVehicleTypeInput fuel io ;;
  let io := put "Enter number of accidents: " io in
  '(accidentCount, io) <~ read_accident_count fuel io ;;
  let io := {| cin := Cin.ignore_line (cin io); cout := cout io |} in
  '(isCommercial, io) <- getYesNoInput "Is this a commercial vehicle" fuel io ;;
  let vehicle := mkVehicle make model year type accidentCount isCommercial in
  let system := assessVehicleRisk float system vehicle in
  let io := {| cin := cin io;
               cout := printRiskAssessment system (cout io) |} in
  '(again, io) <-
     getYesNoInput "Do you want to assess another vehicle" fuel io ;;
  let continueInput := if again then "y"%char else "n"%char in
  let io := put nl io in
  Returned (system, io, Ascii.eqb continueInput "y"%char).

(** The [do ... while (continueInput == 'y')], for at most [turns]
    vehicles. *)
Fixpoint main_loop (turns fuel : nat) (system : InsuranceRiskSystem)
    (io : console) : run (InsuranceRiskSystem * console) :=
  match turns with
  | O => Pending
  | S turns' =>
      '(system, io, again) <- main_body fuel system io ;;
      if again then main_loop turns' fuel system io
      else Returned (system, io)
  end.

(** [main]: the exit code, with the record and the console at the end.
    Nothing in the [try] block throws here, so the handler is not
    reached. *)
Definition main (turns fuel : nat) (io : console)
  : run (Z * InsuranceRiskSystem * console) :=
  '(system, io) <- main_loop turns fuel new_system io ;;
  Returned (0%Z, system, io).

(** ** More vocabulary of the statements *)

(** White space only. *)
Fixpoint blank (s : string) : bool :=
  match s with
  | String c rest => Cin.isspace c && blank rest
  | EmptyString => true
  end.

(** No newline inside. *)
Fixpoint one_line (s : string) : bool :=
  match s with
  | String c rest => negb (Ascii.eqb c "010"%char) && one_line rest
  | EmptyString => true
  end.

(** Does [s] go on with a digit? *)
Definition starts_with_digit (s : string) : bool :=
  match s with
  | String c _ => match Cin.digit c with Some _ => true | None => false end
  | EmptyString => false
  end.

(** The decimal numeral of an integer, as one types it. *)
Definition digit_char (d : Z) : ascii := ascii_of_N (Z.to_N (48 + d)).

Fixpoint show_digits (fuel : nat) (n : Z) (tail : string) : string :=
  match fuel with
  | O => tail
  | S fuel' =>
      let tail' := String (digit_char (n mod 10)) tail in
      if (n <? 10)%Z then tail' else show_digits fuel' (n / 10) tail'
  end.

Definition numeral (z : Z) : string :=
  if (z <? 0)%Z
  then String "-"%char
         (show_digits (S (Z.to_nat (Z.log2 (- z)))) (- z) EmptyString)
  else show_digits (S (Z.to_nat (Z.log2 z))) z EmptyString.

(** The number that selects a vehicle type, and the type a number
    selects. *)
Definition choice (t : VehicleType) : Z :=
  match t with
  | CAR => 1
  | TRUCK => 2
  | MOTORCYCLE => 3
  end%Z.

Definition type_of_choice (r : option Z) : option VehicleType :=
  match r with
  | Some 1%Z => Some CAR
  | Some 2%Z => Some TRUCK
  | Some 3%Z => Some MOTORCYCLE
  | _ => None
  end.

(** The console after a turn of [type_loop] that does not return. *)
Definition type_retry (io : console) : console :=
  let (_, cin') := Cin.extract_int (cin io) in
  if Cin.failbit cin'
  then put type_invalid_input
         {| cin := Cin.ignore_line (Cin.clear cin'); cout := cout io |}
  else put type_invalid_choice {| cin := cin'; cout := cout io |}.

Definition answer (b : bool) : string := if b then "y"%string else "n"%string.

(** What the user types for one vehicle, a line per prompt, and for a
    whole session: [y] after each vehicle but the last. *)
Definition typed_vehicle (v : Vehicle) (again : bool) : string :=
  (getMake v ++ nl ++ getModel v ++ nl
     ++ numeral (getYear v) ++ nl
     ++ numeral (choice (getType v)) ++ nl
     ++ numeral (getAccidentCount v) ++ nl
     ++ answer (getIsCommercial v) ++ nl
     ++ answer again ++ nl)%string.

Fixpoint script (vehicles : list Vehicle) : string :=
  match vehicles with
  | [] => EmptyString
  | [v] => typed_vehicle v false
  | v :: rest => (typed_vehicle v true ++ script rest)%string
  end.

(** A vehicle that can be typed so: validated data, an accident count
    that an [int] holds, make and model without a newline. *)
Definition typable (v : Vehicle) : Prop :=
  validated v
  /\ (getAccidentCount v <= INT_MAX)%Z
  /\ one_line (getMake v) = true
  /\ one_line (getModel v) = true.

(** What [main] prints for one vehicle before its report, and for a whole
    session from a given record. *)
Definition prompts : string :=
  ("Enter vehicle make: " ++ "Enter vehicle model: "
     ++ "Enter vehicle year: " ++ type_prompt
     ++ "Enter number of accidents: "
     ++ "Is this a commercial vehicle (y/n): ")%string.

Fixpoint transcript (system : InsuranceRiskSystem) (vehicles : list Vehicle)
  : string :=
  match vehicles with
  | [] => EmptyString
  | v :: rest =>
      let system' := assessVehicleRisk float system v in
      (prompts ++ report (riskCategories system')
         ++ "Do you want to assess another vehicle (y/n): " ++ nl
         ++ transcript system' rest)%string
  end.

(** The last vehicle of a session that has the identifier [id]. *)
Definition last_with_id (id : string) (vehicles : list Vehicle)
  : option Vehicle :=
  List.find (fun v => String.eqb (vehicleId v) id) (rev vehicles).

(** No space inside. *)
Fixpoint no_space (s : string) : bool :=
  match s with
  | String c rest => negb (Ascii.eqb c " "%char) && no_space rest
  | EmptyString => true
  end.

(** The band of a vehicle without accidents, by flag and year. *)
Definition clean_band (commercial : bool) (year : Z) : RiskLevel :=
  if commercial
  then if (year <? 2015)%Z then HIGH else MEDIUM
  else if (year <? 2000)%Z then HIGH
       else if (year <? 2015)%Z then MEDIUM else LOW.

Definition clean_band_ok (commercial : bool) (year : Z) : bool :=
  let v := mkVehicle "" "" year CAR 0 commercial in
  RiskLevel_eqb (category float v) (clean_band commercial year)
  && RiskLevel_eqb (category Q v) (clean_band commercial year).

Definition sf_neg_finite (x : spec_float) : bool :=
  match x with
  | S754_finite true _ _ => true
  | _ => false
  end.

(** The lines of one vehicle typed loosely: with something more on the
    lines of the year, the accident count and the two answers, and with
    the accident count on the line of the type number or on a later one
    ([sep] is the white space between the two). *)
Definition typed_loosely (v : Vehicle) (again : bool)
    (after_year sep after_count after_commercial after_again : string)
  : string :=
  (getMake v ++ nl ++ getModel v ++ nl
     ++ numeral (getYear v) ++ after_year ++ nl
     ++ numeral (choice (getType v)) ++ sep
     ++ numeral (getAccidentCount v) ++ after_count ++ nl
     ++ answer (getIsCommercial v) ++ after_commercial ++ nl
     ++ answer again ++ after_again ++ nl)%string.

(** The order LOW, MEDIUM, HIGH of the levels. *)
Definition level_le (a b : RiskLevel) : bool :=
  match a, b with
  | LOW, _ | MEDIUM, (MEDIUM | HIGH) | HIGH, HIGH => true
  | _, _ => false
  end.

(** * Properties *)

(** ** Machine integers *)

Lemma int_wrap_id (z : Z) : int_range z -> int_wrap z = z.
Proof.
  unfold int_range, INT_MIN, INT_MAX, int_wrap. intros Hz.
  rewrite Z.mod_small by lia. lia.
Qed.

Lemma age_no_wrap (year : Z) :
  (1970 <= year <= 2024)%Z -> int_sub 2024 year = (2024 - year)%Z.
Proof.
  intros Hy. unfold int_sub. apply int_wrap_id.
  unfold int_range, INT_MIN, INT_MAX. lia.
Qed.

(** ** The scorer *)

Section Scorer.
Context {D : Type} `{DoubleOps D}.
Local Open Scope dbl_scope.

(** The factory hands out a [CarRiskCalculator], and the virtual call
    lands in its methods. *)
Lemma score_unfold (v : Vehicle) :
  score v =
  CarRiskCalculator.applyModifiers v (CarRiskCalculator.calculateBaseRisk v).
Proof. reflexivity. Qed.

Lemma applyModifiers_factors (v : Vehicle) (risk : D) :
  CarRiskCalculator.applyModifiers v risk
  = risk * ageFactor v * accidentFactor v.
Proof. reflexivity. Qed.

End Scorer.

(** C1.  For a vehicle with year in [1970, 2024] and a non-negative
    accident count, whatever its commercial flag, the score that the
    factory's calculator computes is 0.8, multiplied by 1.5 if the vehicle
    is commercial and by 1.0 if not, then by 1 + (2024 - year) * 0.05, then
    by 1 + accidentCount * 0.15; the subtraction is the mathematical one (no
    wrap-around).  The operations are those of the instance: the equation
    holds in binary64, operation by operation, and in exact arithmetic. *)
Theorem score_formula (D : Type) (ops : DoubleOps D) (v : Vehicle) :
  (1970 <= getYear v <= 2024)%Z ->
  (0 <= getAccidentCount v)%Z ->
  calculateTotalRisk (RiskCalculatorFactory.createCalculator v)
  = (dec 0.8 * (if getIsCommercial v then dec 1.5 else dec 1.0)
     * (dec 1.0 + of_int (2024 - getYear v) * dec 0.05)
     * (dec 1.0 + of_int (getAccidentCount v) * dec 0.15))%dbl.
Proof.
  intros Hyear _.
  change (calculateTotalRisk (RiskCalculatorFactory.createCalculator v))
    with (score v).
  rewrite score_unfold, applyModifiers_factors.
  unfold ageFactor, accidentFactor, CarRiskCalculator.calculateBaseRisk,
    CarRiskCalculator.BASE_RISK.
  now rewrite (age_no_wrap Hyear).
Qed.

Lemma score_formula_witness :
  calculateTotalRisk (RiskCalculatorFactory.createCalculator (D:=float) ford_f150)
  = (dec 0.8 * dec 1.5 * (dec 1.0 + of_int (2024 - 2014) * dec 0.05)
     * (dec 1.0 + of_int 2 * dec 0.15))%dbl.
Proof.
  apply (score_formula binary64 ford_f150); simpl; lia.
Defined.

(** C8.  Two vehicles that agree on make, model, year, accident count and
    commercial flag, whatever their types (CAR, TRUCK or MOTORCYCLE), get
    the same calculator from the factory, method by method, hence the same
    score and the same category, and an assessment of either leaves the
    system in the same state. *)
Theorem type_independence (D : Type) (ops : DoubleOps D) (v1 v2 : Vehicle) :
  getMake v1 = getMake v2 ->
  getModel v1 = getModel v2 ->
  getYear v1 = getYear v2 ->
  getAccidentCount v1 = getAccidentCount v2 ->
  getIsCommercial v1 = getIsCommercial v2 ->
  RiskCalculatorFactory.createCalculator v1
    = RiskCalculatorFactory.createCalculator v2
  /\ calculateTotalRisk (RiskCalculatorFactory.createCalculator v1)
     = calculateTotalRisk (RiskCalculatorFactory.createCalculator v2)
  /\ category D v1 = category D v2
  /\ forall system,
       assessVehicleRisk D system v1 = assessVehicleRisk D system v2.
Proof.
  destruct v1 as [mk1 md1 y1 t1 a1 c1], v2 as [mk2 md2 y2 t2 a2 c2].
  simpl. intros -> -> -> -> ->. repeat split.
Qed.

Lemma type_independence_witness :
  category float (with_type MOTORCYCLE ford_f150)
  = category float (with_type CAR ford_f150).
Proof.
  apply (type_independence binary64
           (with_type MOTORCYCLE ford_f150) (with_type CAR ford_f150));
    reflexivity.
Defined.

(** C7.  Scenario B: Ford F150 of 2014, two accidents, commercial.  In
    exact arithmetic the base risk is 1.2, the age factor 1.5, the accident
    factor 1.3 and the score 2.34, which the categorizer maps to HIGH.  In
    binary64 the score is the neighbour 2.3400000000000003 of 2.34, and the
    category is HIGH as well. *)
Theorem scenario_B :
  (calculateBaseRisk (RiskCalculatorFactory.createCalculator (D:=Q) ford_f150)
     == 1.2
   /\ ageFactor (D:=Q) ford_f150 == 1.5
   /\ accidentFactor (D:=Q) ford_f150 == 1.3
   /\ score (D:=Q) ford_f150 == 1.2 * 1.5 * 1.3
   /\ score (D:=Q) ford_f150 == 2.34)%Q
  /\ categorizeRisk (score (D:=Q) ford_f150) = HIGH
  /\ categorizeRisk (score (D:=float) ford_f150) = HIGH.
Proof.
  repeat split; vm_compute; reflexivity.
Qed.

(** ** The commercial flag *)

Lemma float_neq (x y : float) : Prim2SF x <> Prim2SF y -> x <> y.
Proof. intros Hsf ->. now apply Hsf. Qed.

(** C4, as stated, fails in binary64.  The 1970 vehicle without accidents
    is validated input.  Commercial, its score is
    ((0.8 * 1.5) * 3.7) * 1.0 = 0x1.1c28f5c28f5c4p+2 (4.440000000000001);
    non-commercial it is ((0.8 * 1.0) * 3.7) * 1.0 = 2.96, and 1.5 times
    that is 0x1.1c28f5c28f5c3p+2 (4.44), one unit in the last place below:
    the product 0.8 * 1.5 is rounded up to 1.2000000000000002 before the
    other factors come in. *)
Lemma commercial_ratio_counterexample :
  validated (with_commercial true beetle_1970)
  /\ validated (with_commercial false beetle_1970)
  /\ score (D:=float) (with_commercial true beetle_1970)
     <> (dec 1.5 * score (with_commercial false beetle_1970))%dbl
  /\ score (D:=float) (with_commercial true beetle_1970)
     <> (score (with_commercial false beetle_1970) * dec 1.5)%dbl.
Proof.
  unfold validated; simpl.
  repeat split; try lia; apply float_neq; vm_compute; discriminate.
Qed.

(** C4, amended.  For two vehicles that differ in the commercial flag only:
    the base risk of the commercial one is exactly 1.5 times the base risk
    of the other, in binary64 as in exact arithmetic; the score of the
    commercial one is 1.5 times the other score in exact arithmetic. *)
Theorem commercial_ratio (v : Vehicle) :
  calculateBaseRisk
    (RiskCalculatorFactory.createCalculator (D:=float) (with_commercial true v))
  = (dec 1.5 * calculateBaseRisk
       (RiskCalculatorFactory.createCalculator (with_commercial false v)))%dbl
  /\ (calculateBaseRisk
        (RiskCalculatorFactory.createCalculator (D:=Q) (with_commercial true v))
      == 1.5 * calculateBaseRisk
          (RiskCalculatorFactory.createCalculator (with_commercial false v)))%Q
  /\ (score (D:=Q) (with_commercial true v)
      == 1.5 * score (with_commercial false v))%Q.
Proof.
  split; [| split].
  - vm_compute. reflexivity.
  - vm_compute. reflexivity.
  - rewrite !score_unfold, !applyModifiers_factors.
    change (ageFactor (with_commercial true v)) with (ageFactor (D:=Q) v).
    change (ageFactor (with_commercial false v)) with (ageFactor (D:=Q) v).
    change (accidentFactor (with_commercial true v))
      with (accidentFactor (D:=Q) v).
    change (accidentFactor (with_commercial false v))
      with (accidentFactor (D:=Q) v).
    unfold CarRiskCalculator.calculateBaseRisk, CarRiskCalculator.BASE_RISK.
    simpl. ring.
Qed.

(** ** Signs in binary64

    The sign of a rounded result is the sign that went into the rounding:
    rounding a non-negative mantissa gives [+0], a positive number or
    [+oo], never a NaN. *)

Section Rounding.

Lemma shr_1_nonneg (mrs : shr_record) :
  shr_nonneg mrs -> shr_nonneg (shr_1 mrs).
Proof.
  unfold shr_nonneg. destruct mrs as [m r s]; simpl.
  destruct m as [| [p | p |] | p]; simpl; lia.
Qed.

Lemma iter_shr_1_nonneg (p : positive) (mrs : shr_record) :
  shr_nonneg mrs -> shr_nonneg (iter_pos shr_1 p mrs).
Proof.
  revert mrs.
  induction p as [p IH | p IH |]; simpl; intros mrs Hm;
    auto using shr_1_nonneg.
Qed.

Lemma shr_fexp_nonneg (m e : Z) (l : location) :
  (0 <= m)%Z -> shr_nonneg (fst (shr_fexp prec emax m e l)).
Proof.
  intros Hm. unfold shr_fexp, shr.
  assert (Hrec : shr_nonneg (shr_record_of_loc m l))
    by (unfold shr_nonneg; destruct l as [| []]; simpl; exact Hm).
  destruct (fexp prec emax (Zdigits2 m + e) - e)%Z; simpl;
    auto using iter_shr_1_nonneg.
Qed.

Lemma round_nearest_even_nonneg (m : Z) (l : location) :
  (0 <= m)%Z -> (0 <= round_nearest_even m l)%Z.
Proof.
  intros Hm. unfold round_nearest_even.
  destruct l as [| []]; try destruct (Z.even m); lia.
Qed.

End Rounding.

Lemma sf_signed_nonneg (x : spec_float) : sf_signed false x <-> sf_nonneg x.
Proof.
  destruct x as [[] | [] | | [] m e]; simpl; intuition discriminate.
Qed.

Lemma binary_round_aux_signed (sx : bool) (mx ex : Z) (lx : location) :
  (0 <= mx)%Z -> sf_signed sx (binary_round_aux prec emax sx mx ex lx).
Proof.
  intros Hm. unfold binary_round_aux.
  pose proof (shr_fexp_nonneg ex lx Hm) as H1.
  destruct (shr_fexp prec emax mx ex lx) as [mrs' e']. simpl in H1.
  pose proof (round_nearest_even_nonneg (loc_of_shr_record mrs') H1) as H2.
  pose proof (shr_fexp_nonneg e' loc_Exact H2) as H3.
  destruct (shr_fexp prec emax _ e' loc_Exact) as [mrs'' e'']. simpl in H3.
  unfold shr_nonneg in H3.
  destruct (shr_m mrs'') as [| m | m].
  - exact eq_refl.
  - destruct (Z.leb e'' (Z.sub emax prec)); exact eq_refl.
  - lia.
Qed.

Lemma binary_normalize_nonneg (m e : Z) :
  (0 <= m)%Z -> sf_nonneg (binary_normalize prec emax m e false).
Proof.
  intros Hm. apply sf_signed_nonneg.
  destruct m as [| p | p]; simpl; [reflexivity | | lia].
  unfold binary_round.
  destruct (shl_align p e _) as [mz ez].
  apply binary_round_aux_signed. lia.
Qed.

Lemma SFmul_nonneg (x y : spec_float) :
  sf_pos_finite x = true -> sf_nonneg y -> sf_nonneg (SF64mul x y).
Proof.
  destruct x as [| | | [] mx ex]; try discriminate. intros _.
  destruct y as [[] | [] | | [] my ey]; try (simpl; tauto). intros _.
  unfold SF64mul, SFmul.
  apply sf_signed_nonneg, binary_round_aux_signed. lia.
Qed.

Lemma SFadd_nonneg (x y : spec_float) :
  sf_nonneg x -> sf_nonneg y -> sf_nonneg (SF64add x y).
Proof.
  destruct x as [[] | [] | | [] mx ex], y as [[] | [] | | [] my ey];
    try (simpl; tauto).
  intros _ _. unfold SF64add, SFadd.
  apply binary_normalize_nonneg.
  unfold cond_Zopp. lia.
Qed.

Lemma SFleb_zero_nonneg (x : spec_float) :
  sf_nonneg x -> SFleb (S754_zero false) x = true.
Proof.
  destruct x as [[] | [] | | [] m e]; simpl; tauto || reflexivity.
Qed.

(** The same, on the primitive operations. *)

Lemma of_int_nonneg (z : Z) : (0 <= z)%Z -> nonneg (B64.of_int z).
Proof.
  intros Hz. unfold nonneg, B64.of_int.
  destruct (Z.ltb_spec z 0); [lia |].
  rewrite FloatAxioms.of_uint63_spec.
  apply binary_normalize_nonneg.
  apply Uint63.to_Z_bounded.
Qed.

Lemma mul_nonneg (x y : float) :
  sf_pos_finite (Prim2SF x) = true -> nonneg y -> nonneg (x * y)%float.
Proof. unfold nonneg. rewrite FloatAxioms.mul_spec. apply SFmul_nonneg. Qed.

Lemma mul_nonneg_r (x y : float) :
  nonneg x -> sf_pos_finite (Prim2SF y) = true -> nonneg (x * y)%float.
Proof.
  unfold nonneg. rewrite FloatAxioms.mul_spec.
  destruct (Prim2SF y) as [| | | [] my ey]; try discriminate.
  destruct (Prim2SF x) as [[] | [] | | [] mx ex]; try (simpl; tauto).
  intros _ _. unfold SF64mul, SFmul.
  apply sf_signed_nonneg, binary_round_aux_signed. lia.
Qed.

Lemma add_nonneg (x y : float) :
  nonneg x -> nonneg y -> nonneg (x + y)%float.
Proof. unfold nonneg. rewrite FloatAxioms.add_spec. apply SFadd_nonneg. Qed.

Lemma nonneg_leb (x : float) : nonneg x -> (0 <=? x)%float = true.
Proof.
  intros Hx. rewrite FloatAxioms.leb_spec.
  change (Prim2SF 0) with (S754_zero false).
  now apply SFleb_zero_nonneg.
Qed.

Lemma nonneg_not_nan (x : float) : nonneg x -> B64.is_nan x = false.
Proof.
  unfold nonneg, B64.is_nan. rewrite FloatAxioms.eqb_spec. unfold SFeqb.
  destruct (Prim2SF x) as [[] | [] | | [] m e]; simpl; try tauto;
    intros _; rewrite ?Z.compare_refl, ?Pos.compare_cont_refl; reflexivity.
Qed.

(** ** Non-negative scores *)

Lemma range_cases (lo : Z) (n : nat) (P : Z -> bool) :
  forallb P (map (fun k => (lo + Z.of_nat k)%Z) (seq 0 n)) = true ->
  forall z, (lo <= z < lo + Z.of_nat n)%Z -> P z = true.
Proof.
  intros Hall z Hz.
  rewrite forallb_forall in Hall. apply Hall.
  apply in_map_iff. exists (Z.to_nat (z - lo)). split; [lia |].
  apply in_seq. lia.
Qed.

Lemma year_cases (P : Z -> bool) :
  forallb P (map (fun k => (1970 + Z.of_nat k)%Z) (seq 0 55)) = true ->
  forall year, (1970 <= year <= 2024)%Z -> P year = true.
Proof.
  intros Hall year Hy. apply (@range_cases 1970%Z 55%nat P Hall). lia.
Qed.

Lemma risk_after_age_pos (comm : bool) (year : Z) :
  (1970 <= year <= 2024)%Z ->
  sf_pos_finite (Prim2SF (risk_after_age comm year)) = true.
Proof.
  revert year.
  destruct comm; apply year_cases; vm_compute; reflexivity.
Qed.

Lemma accidentFactor_nonneg (v : Vehicle) :
  (0 <= getAccidentCount v)%Z -> nonneg (accidentFactor (D:=float) v).
Proof.
  intros Hacc. unfold accidentFactor; simpl.
  apply add_nonneg.
  - vm_compute. exact I.
  - apply mul_nonneg_r; [now apply of_int_nonneg | reflexivity].
Qed.

Lemma score_nonneg_binary64 (v : Vehicle) :
  validated v -> nonneg (score (D:=float) v).
Proof.
  intros [Hyear Hacc].
  change (score v)
    with (risk_after_age (getIsCommercial v) (getYear v)
          * accidentFactor (D:=float) v)%float.
  apply mul_nonneg.
  - now apply risk_after_age_pos.
  - now apply accidentFactor_nonneg.
Qed.

Lemma score_nonneg_exact (v : Vehicle) :
  validated v -> (0 <= score (D:=Q) v)%Q.
Proof.
  intros [Hyear Hacc].
  rewrite score_unfold, applyModifiers_factors.
  unfold ageFactor, accidentFactor, CarRiskCalculator.calculateBaseRisk,
    CarRiskCalculator.BASE_RISK.
  rewrite (age_no_wrap Hyear). cbn [dmul dadd of_int dec exact].
  assert (Hlin : forall (k : Z) (c : Q),
             (0 <= k)%Z -> (0 <= c)%Q -> (0 <= 1.0 + inject_Z k * c)%Q).
  { intros k c Hk Hc.
    apply (Qle_trans _ (1.0 + 0)); [discriminate |].
    apply Qplus_le_r, Qmult_le_0_compat; [| exact Hc].
    change 0%Q with (inject_Z 0). now rewrite <- Zle_Qle. }
  repeat apply Qmult_le_0_compat;
    try (apply Hlin; [lia | discriminate]).
  - discriminate.
  - destruct (getIsCommercial v); discriminate.
Qed.

(** C3.  The scorer is a total function of the vehicle, and on a vehicle
    that passed the input validation (year in [1970, 2024], accident count
    at least 0) nothing goes wrong in it: the [int] subtraction stays in
    range, and the result is a non-negative number.  In binary64 it is not
    a NaN and [0 <= score] holds; in exact arithmetic [0 <= score]. *)
Theorem scorer_total_nonneg (v : Vehicle) :
  validated v ->
  int_range (2024 - getYear v)
  /\ (exists s : float,
        calculateTotalRisk (RiskCalculatorFactory.createCalculator v) = s
        /\ B64.is_nan s = false
        /\ (0 <=? s)%float = true)
  /\ (exists q : Q,
        calculateTotalRisk (RiskCalculatorFactory.createCalculator v) = q
        /\ (0 <= q)%Q).
Proof.
  intros Hv. split; [| split].
  - destruct Hv as [Hyear _]. unfold int_range, INT_MIN, INT_MAX. lia.
  - exists (score v). pose proof (score_nonneg_binary64 Hv) as Hs.
    auto using nonneg_not_nan, nonneg_leb.
  - exists (score v). auto using score_nonneg_exact.
Qed.

Lemma scorer_total_nonneg_witness :
  int_range (2024 - getYear ford_f150)
  /\ (exists s : float,
        calculateTotalRisk (RiskCalculatorFactory.createCalculator ford_f150)
        = s
        /\ B64.is_nan s = false
        /\ (0 <=? s)%float = true)
  /\ (exists q : Q,
        calculateTotalRisk (RiskCalculatorFactory.createCalculator ford_f150)
        = q
        /\ (0 <= q)%Q).
Proof.
  apply (@scorer_total_nonneg ford_f150).
  unfold validated; simpl; lia.
Defined.

(** ** The categorizer *)

Lemma SFcompare_antisym (x y : spec_float) :
  SFcompare y x = option_map CompOpp (SFcompare x y).
Proof.
  destruct x as [[] | [] | | [] mx ex], y as [[] | [] | | [] my ey];
    try reflexivity; simpl;
    rewrite (Z.compare_antisym ex ey);
    destruct (ex ?= ey)%Z; simpl; try reflexivity;
    change (Pos.compare_cont Eq my mx) with (Pos.compare my mx);
    change (Pos.compare_cont Eq mx my) with (Pos.compare mx my);
    rewrite (Pos.compare_antisym mx my);
    now rewrite ?CompOpp_involutive.
Qed.

Lemma SFcompare_defined (x y : spec_float) :
  x <> S754_nan -> y <> S754_nan -> exists c, SFcompare x y = Some c.
Proof.
  destruct x as [[] | [] | | [] mx ex], y as [[] | [] | | [] my ey];
    simpl; intros Hx Hy; try congruence; eauto.
Qed.

Lemma SFleb_not_ltb (x y : spec_float) :
  SFleb x y = true -> SFltb y x = false.
Proof.
  unfold SFleb, SFltb. rewrite (SFcompare_antisym x y).
  destruct (SFcompare x y) as [[] |]; simpl; congruence.
Qed.

Lemma SFnot_ltb_leb (x y : spec_float) :
  x <> S754_nan -> y <> S754_nan -> SFltb y x = false -> SFleb x y = true.
Proof.
  intros Hx Hy. unfold SFleb, SFltb. rewrite (SFcompare_antisym x y).
  destruct (SFcompare_defined Hx Hy) as [[] ->]; simpl; congruence.
Qed.

Lemma is_nan_spec (s : float) :
  B64.is_nan s = false <-> Prim2SF s <> S754_nan.
Proof.
  unfold B64.is_nan. rewrite FloatAxioms.eqb_spec. unfold SFeqb.
  destruct (Prim2SF s) as [[] | [] | | [] m e]; simpl;
    rewrite ?Z.compare_refl, ?Pos.compare_cont_refl; simpl;
    split; congruence.
Qed.

(** The two thresholds, as binary64 data. *)
Lemma threshold_low :
  Prim2SF (B64.dec 1.2) = S754_finite false 5404319552844595 (-52).
Proof. vm_compute. reflexivity. Qed.

Lemma threshold_high :
  Prim2SF (B64.dec 1.8) = S754_finite false 8106479329266893 (-52).
Proof. vm_compute. reflexivity. Qed.

(** A datum at or above the larger of two positive numbers of one exponent
    is not below the smaller one. *)
Lemma SFleb_ltb_finite (m1 m2 : positive) (e0 : Z) (x : spec_float) :
  (m1 < m2)%positive ->
  SFleb (S754_finite false m2 e0) x = true ->
  SFltb x (S754_finite false m1 e0) = false.
Proof.
  intros Hm. unfold SFleb, SFltb.
  destruct x as [[] | [] | | [] m e]; simpl; try congruence.
  rewrite (Z.compare_antisym e0 e).
  destruct (Z.compare_spec e0 e) as [<- | Hlt | Hgt]; simpl; try congruence.
  change (Pos.compare_cont Eq m2 m) with (Pos.compare m2 m).
  change (Pos.compare_cont Eq m m1) with (Pos.compare m m1).
  destruct (Pos.compare_spec m2 m) as [<- | Hm2 | Hm2]; try congruence;
    intros _.
  - rewrite (proj2 (Pos.compare_gt_iff m2 m1)); [reflexivity | exact Hm].
  - rewrite (proj2 (Pos.compare_gt_iff m m1)); [reflexivity | lia].
Qed.

(** [1.8 <= s] excludes [s < 1.2]. *)
Lemma above_high_not_below_low (s : float) :
  (dec 1.8 <=? s)%dbl = true -> (s <? dec 1.2)%dbl = false.
Proof.
  cbn [dltb dleb dec binary64].
  rewrite FloatAxioms.leb_spec, FloatAxioms.ltb_spec.
  rewrite threshold_low, threshold_high.
  apply SFleb_ltb_finite. reflexivity.
Qed.

Lemma bands_binary64 (s : float) :
  B64.is_nan s = false -> categorizer_spec s.
Proof.
  intros Hs%is_nan_spec level.
  assert (Hlow : Prim2SF (B64.dec 1.2) <> S754_nan)
    by (rewrite threshold_low; congruence).
  assert (Hhigh : Prim2SF (B64.dec 1.8) <> S754_nan)
    by (rewrite threshold_high; congruence).
  pose proof (@SFleb_not_ltb (Prim2SF (B64.dec 1.2)) (Prim2SF s)) as Hlt_low.
  pose proof (@SFleb_not_ltb (Prim2SF (B64.dec 1.8)) (Prim2SF s)) as Hlt_high.
  pose proof (@SFnot_ltb_leb _ _ Hlow Hs) as Hle_low.
  pose proof (@SFnot_ltb_leb _ _ Hhigh Hs) as Hle_high.
  pose proof (@above_high_not_below_low s) as Hfar.
  unfold categorizeRisk, bands. cbn [dltb dleb dec binary64] in *.
  rewrite !FloatAxioms.leb_spec, !FloatAxioms.ltb_spec in *.
  set (below_low := SFltb (Prim2SF s) (Prim2SF (B64.dec 1.2))) in *.
  set (below_high := SFltb (Prim2SF s) (Prim2SF (B64.dec 1.8))) in *.
  set (above_low := SFleb (Prim2SF (B64.dec 1.2)) (Prim2SF s)) in *.
  set (above_high := SFleb (Prim2SF (B64.dec 1.8)) (Prim2SF s)) in *.
  clearbody below_low below_high above_low above_high.
  destruct below_low, below_high, above_low, above_high, level;
    intuition congruence.
Qed.

Lemma exact_ltb_spec (x y : Q) : Exact.ltb x y = true <-> (x < y)%Q.
Proof.
  unfold Exact.ltb. rewrite negb_true_iff, <- not_true_iff_false, Qle_bool_iff.
  split; [apply Qnot_le_lt | apply Qlt_not_le].
Qed.

Lemma bands_exact (s : Q) : categorizer_spec s.
Proof.
  intros level. unfold categorizeRisk, bands. cbn [dltb dleb dec exact].
  pose proof (exact_ltb_spec s 1.2) as Hbelow_low.
  pose proof (exact_ltb_spec s 1.8) as Hbelow_high.
  pose proof (Qle_bool_iff 1.2 s) as Habove_low.
  pose proof (Qle_bool_iff 1.8 s) as Habove_high.
  destruct (Exact.ltb s 1.2), (Exact.ltb s 1.8),
    (Qle_bool 1.2 s), (Qle_bool 1.8 s), level;
    split; intros Hgoal;
    try discriminate; try reflexivity; try tauto;
    try (destruct Hgoal; discriminate);
    exfalso;
    repeat match goal with
      | Hb : true = true <-> _ |- _ => apply proj1 in Hb; specialize (Hb eq_refl)
      | Hb : false = true <-> ?P |- _ =>
          assert (~ P) by (intros Hp; apply Hb in Hp; discriminate Hp);
          clear Hb
      end;
    lra.
Qed.

(** Every score of a validated vehicle is a number, hence in its band. *)
Lemma validated_score_bands (v : Vehicle) :
  validated v -> categorizer_spec (score (D:=float) v).
Proof.
  intros Hv. apply bands_binary64.
  now apply nonneg_not_nan, score_nonneg_binary64.
Qed.

(** A NaN is the score of no validated vehicle, and the categorizer is
    private and called on the score of the vehicle being assessed only.
    Were it given a NaN, both comparisons [NaN < 1.2] and [NaN < 1.8] being
    false, it would answer HIGH, while [1.8 <= NaN] is false as well. *)
Remark categorizeRisk_nan :
  categorizeRisk (D:=float) nan = HIGH
  /\ (dec 1.8 <=? nan)%dbl = false
  /\ ~ (categorizeRisk (D:=float) nan = HIGH <-> (dec 1.8 <=? nan)%dbl = true).
Proof.
  split; [reflexivity | split; [reflexivity |]].
  intros [Hhigh _]. specialize (Hhigh eq_refl). vm_compute in Hhigh.
  discriminate.
Qed.

(** C2.  For every score [s], the categorizer returns LOW iff [s < 1.2],
    MEDIUM iff [1.2 <= s < 1.8] and HIGH iff [1.8 <= s]; a score at a
    threshold is in the upper band (1.2 gives MEDIUM, 1.8 gives HIGH, while
    1.19999 gives LOW and 1.79999 gives MEDIUM).  In binary64 a score is a
    double that is a number, as the score of every validated vehicle is;
    in exact arithmetic it is any rational. *)
Theorem categorizer_bands :
  (forall s : float,
      B64.is_nan s = false ->
      ((categorizeRisk s = LOW <-> (s <? dec 1.2) = true)
       /\ (categorizeRisk s = MEDIUM
           <-> (dec 1.2 <=? s) = true /\ (s <? dec 1.8) = true)
       /\ (categorizeRisk s = HIGH <-> (dec 1.8 <=? s) = true))%dbl)
  /\ (categorizeRisk (D:=float) (dec 1.2) = MEDIUM
      /\ categorizeRisk (D:=float) (dec 1.8) = HIGH
      /\ categorizeRisk (D:=float) (dec 1.19999) = LOW
      /\ categorizeRisk (D:=float) (dec 1.79999) = MEDIUM)
  /\ (forall v, validated v ->
        B64.is_nan (score v) = false /\ categorizer_spec (score (D:=float) v))
  /\ (forall q : Q, categorizer_spec q)
  /\ (categorizeRisk (D:=Q) 1.2 = MEDIUM /\ categorizeRisk (D:=Q) 1.8 = HIGH).
Proof.
  split; [| split; [| split; [| split]]].
  - intros s Hs. pose proof (bands_binary64 s Hs) as Hbands.
    exact (conj (Hbands LOW) (conj (Hbands MEDIUM) (Hbands HIGH))).
  - repeat split; reflexivity.
  - intros v Hv. split.
    + now apply nonneg_not_nan, score_nonneg_binary64.
    + now apply validated_score_bands.
  - exact bands_exact.
  - split; reflexivity.
Qed.

Lemma categorizer_bands_witness :
  (categorizeRisk (score (D:=float) ford_f150) = HIGH
   <-> (dec 1.8 <=? score (D:=float) ford_f150)%dbl = true).
Proof.
  assert (Hnum : B64.is_nan (score (D:=float) ford_f150) = false)
    by reflexivity.
  exact (proj2 (proj2 (proj1 categorizer_bands _ Hnum))).
Defined.

(** ** Rounding and the categories

    The binary64 score is not the exact score, but up to a hundred accidents
    the two are in the same band for every validated vehicle: on these
    inputs the rounding never carries a score across a threshold. *)

Lemma RiskLevel_eqb_eq (a b : RiskLevel) : RiskLevel_eqb a b = true -> a = b.
Proof. destruct a, b; simpl; congruence. Qed.

Lemma categories_agree (v : Vehicle) :
  validated v -> (getAccidentCount v <= 100)%Z ->
  category float v = category Q v.
Proof.
  destruct v as [mk md year t acc comm]. unfold validated; simpl.
  intros [Hyear Hacc] Hacc'.
  apply RiskLevel_eqb_eq.
  change (same_category comm year acc = true).
  revert year Hyear.
  apply (@year_cases (fun year => same_category comm year acc)).
  assert (Hz : (0 <= acc < 0 + Z.of_nat 101)%Z) by lia.
  clear Hacc Hacc'. revert acc Hz.
  apply (@range_cases 0%Z 101%nat
           (fun acc =>
              forallb (fun year => same_category comm year acc)
                (map (fun k => (1970 + Z.of_nat k)%Z) (seq 0 55)))).
  destruct comm; vm_compute; reflexivity.
Qed.

(** ** The order on identifiers *)

Lemma string_lt_lexicographic (a b : string) :
  string_lt a b <-> String_as_OT.lt a b.
Proof. apply String_as_OT.cmp_lt. Qed.

Lemma string_lt_trans (a b c : string) :
  string_lt a b -> string_lt b c -> string_lt a c.
Proof.
  rewrite !string_lt_lexicographic. apply String_as_OT.lt_trans.
Qed.

Lemma string_compare_refl (a : string) : (a ?= a)%string = Eq.
Proof. now apply String_as_OT.cmp_eq. Qed.

Lemma string_lt_irrefl (a : string) : ~ string_lt a a.
Proof. unfold string_lt. rewrite string_compare_refl. discriminate. Qed.

Lemma string_compare_gt (a b : string) :
  (a ?= b)%string = Gt -> string_lt b a.
Proof.
  unfold string_lt. rewrite (String.compare_antisym b a).
  now intros ->.
Qed.

Lemma string_compare_eq (a b : string) : (a ?= b)%string = Eq -> a = b.
Proof. apply String.compare_eq_iff. Qed.

Lemma string_compare_neq (a b : string) :
  (a ?= b)%string <> Eq -> String.eqb a b = false.
Proof.
  intros Hcmp. apply String.eqb_neq. intros ->.
  apply Hcmp, string_compare_refl.
Qed.

(** ** The ordered map *)

Module StdMapFacts.
Import StdMap.

Lemma set_upsert (k : string) (v : RiskLevel) (m : t) :
  set k v m = upsert k v m.
Proof.
  unfold set. induction m as [| [k' v'] rest IH]; simpl.
  - now rewrite String.eqb_refl.
  - destruct (k ?= k')%string eqn:Hcmp; simpl.
    + apply string_compare_eq in Hcmp as ->. now rewrite String.eqb_refl.
    + now rewrite String.eqb_refl.
    + rewrite string_compare_neq by congruence. now rewrite IH.
Qed.

Lemma find_upsert_same (k : string) (v : RiskLevel) (m : t) :
  find k (upsert k v m) = Some v.
Proof.
  induction m as [| [k' v'] rest IH]; simpl.
  - now rewrite String.eqb_refl.
  - destruct (k ?= k')%string eqn:Hcmp; simpl.
    + apply string_compare_eq in Hcmp as ->. now rewrite String.eqb_refl.
    + now rewrite String.eqb_refl.
    + now rewrite string_compare_neq by congruence.
Qed.

Lemma find_upsert_other (k k' : string) (v : RiskLevel) (m : t) :
  k' <> k -> find k' (upsert k v m) = find k' m.
Proof.
  intros Hneq. apply String.eqb_neq in Hneq as Hneqb.
  induction m as [| [k0 v0] rest IH]; simpl.
  - now rewrite Hneqb.
  - destruct (k ?= k0)%string eqn:Hcmp; simpl.
    + apply string_compare_eq in Hcmp as <-. now rewrite Hneqb.
    + now rewrite Hneqb.
    + now rewrite IH.
Qed.

Lemma upsert_upsert (k : string) (v1 v2 : RiskLevel) (m : t) :
  upsert k v2 (upsert k v1 m) = upsert k v2 m.
Proof.
  induction m as [| [k' v'] rest IH]; simpl.
  - now rewrite string_compare_refl.
  - destruct (k ?= k')%string eqn:Hcmp; simpl.
    + now rewrite Hcmp.
    + now rewrite string_compare_refl.
    + now rewrite Hcmp, IH.
Qed.

Lemma keys_upsert (k x : string) (v : RiskLevel) (m : t) :
  In x (keys (upsert k v m)) <-> x = k \/ In x (keys m).
Proof.
  induction m as [| [k' v'] rest IH]; simpl.
  - intuition.
  - destruct (k ?= k')%string eqn:Hcmp; simpl.
    + apply string_compare_eq in Hcmp as ->. intuition.
    + intuition.
    + rewrite IH. intuition.
Qed.

Lemma ordered_upsert (k : string) (v : RiskLevel) (m : t) :
  ordered m -> ordered (upsert k v m).
Proof.
  unfold ordered.
  induction m as [| [k' v'] rest IH]; simpl; intros Hm.
  - repeat constructor.
  - apply StronglySorted_inv in Hm as [Hrest Hhead].
    destruct (k ?= k')%string eqn:Hcmp; simpl.
    + now constructor.
    + constructor; [now constructor |].
      constructor; [exact Hcmp |].
      eapply Forall_impl; [| exact Hhead].
      intros x. now apply string_lt_trans.
    + constructor; [now apply IH |].
      apply Forall_forall. intros x [-> | Hx]%keys_upsert.
      * now apply string_compare_gt.
      * revert x Hx. now apply Forall_forall.
Qed.

Lemma ordered_NoDup (m : t) : ordered m -> NoDup (keys m).
Proof.
  unfold ordered. induction 1 as [| k ks Hks IH Hhead]; constructor; auto.
  intros Hin. rewrite Forall_forall in Hhead.
  exact (string_lt_irrefl (Hhead _ Hin)).
Qed.

(** In an ordered map the entries are what [find] finds. *)
Lemma find_In (m : t) (k : string) (v : RiskLevel) :
  ordered m -> (In (k, v) m <-> find k m = Some v).
Proof.
  unfold ordered.
  induction m as [| [k' v'] rest IH]; simpl; intros Hm.
  - split; [tauto | discriminate].
  - apply StronglySorted_inv in Hm as [Hrest Hhead].
    destruct (String.eqb_spec k k') as [-> | Hneq].
    + split.
      * intros [[= ->] | Hin]; [reflexivity |].
        rewrite Forall_forall in Hhead.
        destruct (string_lt_irrefl (a := k')).
        apply Hhead. change k' with (fst (k', v)). now apply in_map.
      * intros [= ->]. now left.
    + rewrite <- (IH Hrest). split.
      * intros [[= -> _] | Hin]; [congruence | exact Hin].
      * now right.
Qed.

End StdMapFacts.

(** ** Assessments *)

Section SystemFacts.
Context {D : Type} `{DoubleOps D}.
Import StdMap StdMapFacts.

Lemma assess_categories (system : InsuranceRiskSystem) (v : Vehicle) :
  riskCategories (assessVehicleRisk D system v)
  = upsert (vehicleId v) (category D v) (riskCategories system).
Proof. unfold assessVehicleRisk; simpl. apply set_upsert. Qed.

Lemma system_eq (s1 s2 : InsuranceRiskSystem) :
  riskCategories s1 = riskCategories s2 -> s1 = s2.
Proof. destruct s1, s2; simpl. now intros ->. Qed.

Lemma assessAll_snoc (vehicles : list Vehicle) (v : Vehicle) :
  assessAll D (vehicles ++ [v])
  = assessVehicleRisk D (assessAll D vehicles) v.
Proof. unfold assessAll. now rewrite fold_left_app. Qed.

(** The class invariant holds in every state a session reaches. *)
Lemma assessAll_ordered (vehicles : list Vehicle) :
  ordered (riskCategories (assessAll D vehicles)).
Proof.
  induction vehicles as [| v vehicles IH] using rev_ind.
  - constructor.
  - rewrite assessAll_snoc, assess_categories. now apply ordered_upsert.
Qed.

Lemma assessAll_keys (vehicles : list Vehicle) (k : string) :
  In k (keys (riskCategories (assessAll D vehicles)))
  <-> exists v, In v vehicles /\ vehicleId v = k.
Proof.
  induction vehicles as [| v vehicles IH] using rev_ind.
  - simpl. split; [tauto | now intros (v & [] & _)].
  - rewrite assessAll_snoc, assess_categories, keys_upsert, IH.
    split.
    + intros [-> | (w & Hw & Hk)].
      * exists v. split; [apply in_or_app; simpl; auto | reflexivity].
      * exists w. split; [apply in_or_app; auto | exact Hk].
    + intros (w & [Hw | [-> | []]]%in_app_or & Hk); eauto.
Qed.

End SystemFacts.

Lemma NoDup_count_occ_1 (l : list string) (x : string) :
  NoDup l -> In x l -> count_occ string_dec l x = 1%nat.
Proof.
  intros Hnd Hin.
  pose proof (proj1 (NoDup_count_occ string_dec l) Hnd x) as Hle.
  pose proof (proj1 (count_occ_In string_dec l x) Hin) as Hgt.
  lia.
Qed.

(** C5.  Recording an assessment is an upsert on the identifier
    make + " " + model.  In any state a session has reached, after two more
    assessments: the identifier of the second vehicle is mapped to the
    category computed for the second vehicle; if both vehicles have the
    same identifier, the state is the one that the second assessment alone
    leads to, and the identifier has one entry only (nothing of the first
    assessment is left); if the identifiers differ, both are present, each
    with the category computed for its own vehicle. *)
Theorem assessment_upsert (D : Type) (ops : DoubleOps D)
    (vehicles : list Vehicle) (v1 v2 : Vehicle) :
  let system := assessAll D vehicles in
  let after := assessVehicleRisk D (assessVehicleRisk D system v1) v2 in
  vehicleId v2 = (getMake v2 ++ " " ++ getModel v2)%string
  /\ StdMap.find (vehicleId v2) (riskCategories after) = Some (category D v2)
  /\ (vehicleId v1 = vehicleId v2 ->
      after = assessVehicleRisk D system v2
      /\ count_occ string_dec (StdMap.keys (riskCategories after))
           (vehicleId v2) = 1%nat)
  /\ (vehicleId v1 <> vehicleId v2 ->
      StdMap.find (vehicleId v1) (riskCategories after) = Some (category D v1)
      /\ StdMap.find (vehicleId v2) (riskCategories after)
         = Some (category D v2)).
Proof.
  intros system after.
  assert (Hlast : StdMap.find (vehicleId v2) (riskCategories after)
                  = Some (category D v2)).
  { unfold after. rewrite assess_categories.
    apply StdMapFacts.find_upsert_same. }
  split; [reflexivity |]. split; [exact Hlast |]. split.
  - intros Hid. split.
    + apply system_eq. unfold after.
      rewrite !assess_categories, Hid.
      apply StdMapFacts.upsert_upsert.
    + apply NoDup_count_occ_1.
      * apply StdMapFacts.ordered_NoDup.
        unfold after, system. rewrite <- !assessAll_snoc.
        apply assessAll_ordered.
      * unfold after. rewrite assess_categories.
        apply StdMapFacts.keys_upsert. now left.
  - intros Hid. split; [| exact Hlast].
    unfold after. rewrite assess_categories.
    rewrite StdMapFacts.find_upsert_other by exact Hid.
    rewrite assess_categories. apply StdMapFacts.find_upsert_same.
Qed.

Lemma assessment_upsert_witness :
  (assessVehicleRisk float
     (assessVehicleRisk float (assessAll float [toyota_corolla]) ford_f150)
     ford_f150_new
   = assessVehicleRisk float (assessAll float [toyota_corolla]) ford_f150_new)
  /\ StdMap.find "Toyota Corolla"
       (riskCategories
          (assessVehicleRisk float
             (assessVehicleRisk float (assessAll float []) toyota_corolla)
             ford_f150))
     = Some (category float toyota_corolla).
Proof.
  split.
  - apply (assessment_upsert binary64 [toyota_corolla] ford_f150 ford_f150_new).
    reflexivity.
  - apply (assessment_upsert binary64 [] toyota_corolla ford_f150).
    discriminate.
Defined.

(** C9.  An assessment touches the entry of the vehicle's identifier only:
    every other key is mapped after [assessVehicleRisk] to what it was
    mapped before (and is absent after it if it was absent before). *)
Theorem assessment_frame (D : Type) (ops : DoubleOps D)
    (system : InsuranceRiskSystem) (v : Vehicle) (k : string) :
  k <> vehicleId v ->
  StdMap.find k (riskCategories (assessVehicleRisk D system v))
  = StdMap.find k (riskCategories system).
Proof.
  intros Hk. rewrite assess_categories.
  now apply StdMapFacts.find_upsert_other.
Qed.

Lemma assessment_frame_witness :
  StdMap.find "Toyota Corolla"
    (riskCategories
       (assessVehicleRisk float (assessAll float [toyota_corolla]) ford_f150))
  = StdMap.find "Toyota Corolla"
      (riskCategories (assessAll float [toyota_corolla])).
Proof.
  apply (assessment_frame binary64 (assessAll float [toyota_corolla])
           ford_f150).
  discriminate.
Defined.

(** ** The report *)

Lemma append_assoc (a b c : string) :
  ((a ++ b) ++ c = a ++ (b ++ c))%string.
Proof. induction a as [| ch a IH]; simpl; [reflexivity | now rewrite IH]. Qed.

Lemma append_nil_r (a : string) : (a ++ "")%string = a.
Proof. induction a as [| ch a IH]; simpl; [reflexivity | now rewrite IH]. Qed.

Lemma printRiskAssessment_report (system : InsuranceRiskSystem)
    (cout : string) :
  printRiskAssessment system cout
  = (cout ++ report (riskCategories system))%string.
Proof.
  unfold printRiskAssessment. destruct system as [entries]; simpl.
  revert cout. induction entries as [| risk entries IH]; simpl; intros cout.
  - now rewrite append_nil_r.
  - now rewrite IH, append_assoc.
Qed.

(** C10.  In any state a session has reached, the report is the text of
    the entries of the Assessment Record in the order of the map, and that
    order is strictly ascending in the lexicographic order of the
    identifiers: each assessed identifier has one entry, printed once as
    the line "Vehicle: <identifier>" followed by the line
    "Risk Level: <level>", where the level is the one the record holds
    for that identifier, spelled by its own name: LOW for LOW, MEDIUM for
    MEDIUM and HIGH for HIGH. *)
Theorem report_order (D : Type) (ops : DoubleOps D)
    (vehicles : list Vehicle) (cout : string) :
  let entries := riskCategories (assessAll D vehicles) in
  printRiskAssessment (assessAll D vehicles) cout
    = (cout ++ report entries)%string
  /\ (forall risk text,
        report (risk :: text)
        = ("Vehicle: " ++ fst risk ++ nl ++ "Risk Level: "
             ++ riskLevelStr (snd risk) ++ nl ++ report text)%string)
  /\ (riskLevelStr LOW = "LOW"%string
      /\ riskLevelStr MEDIUM = "MEDIUM"%string
      /\ riskLevelStr HIGH = "HIGH"%string)
  /\ StronglySorted string_lt (StdMap.keys entries)
  /\ (forall a b, string_lt a b <-> String_as_OT.lt a b)
  /\ NoDup (StdMap.keys entries)
  /\ (forall id,
        In id (StdMap.keys entries)
        <-> exists v, In v vehicles /\ vehicleId v = id)
  /\ (forall id level,
        In (id, level) entries <-> StdMap.find id entries = Some level).
Proof.
  intros entries.
  pose proof (assessAll_ordered (D:=D) vehicles) as Hord.
  split. { apply printRiskAssessment_report. }
  split.
  { intros risk text.
    change (report (risk :: text)) with (printEntry risk ++ report text)%string.
    unfold printEntry. now rewrite !append_assoc. }
  split. { repeat split. }
  split. { exact Hord. }
  split. { exact string_lt_lexicographic. }
  split. { now apply StdMapFacts.ordered_NoDup. }
  split. { apply assessAll_keys. }
  intros id level. now apply StdMapFacts.find_In.
Qed.

(** A session of two assessments, Toyota first: the Ford comes first in the
    report. *)
Example report_two_vehicles :
  printRiskAssessment (assessAll float [toyota_corolla; ford_f150]) ""
  = ("Vehicle: Ford F150" ++ nl ++ "Risk Level: HIGH" ++ nl
     ++ "Vehicle: Toyota Corolla" ++ nl ++ "Risk Level: LOW" ++ nl)%string.
Proof. reflexivity. Qed.

(** ** The input loops *)

Section InputLoopFacts.
Variable rejected : Z -> bool.
Variable msg : string.

Lemma input_loop_step (fuel : nat) (io : console) :
  input_loop rejected msg (S fuel) io
  = if loops_on rejected (attempt io)
    then input_loop rejected msg fuel (reprompt msg io)
    else match attempt io with
         | Some x =>
             Some (x, {| cin := snd (Cin.extract_int (cin io));
                         cout := cout io |})
         | None => None
         end.
Proof.
  unfold attempt. simpl.
  destruct (Cin.extract_int (cin io)) as [[x |] cin']; simpl;
    [destruct (rejected x) |]; reflexivity.
Qed.

Lemma times_snoc (n : nat) :
  (times n msg ++ msg)%string = times (S n) msg.
Proof.
  unfold times. induction n as [| n IH]; simpl.
  - now rewrite append_nil_r.
  - now rewrite append_assoc, IH.
Qed.

Lemma cout_turns (n : nat) (io : console) :
  cout (Nat.iter n (reprompt msg) io) = (cout io ++ times n msg)%string.
Proof.
  induction n as [| n IH].
  - simpl. now rewrite append_nil_r.
  - rewrite <- times_snoc, <- append_assoc, <- IH. reflexivity.
Qed.

(** The loop ends only on a value that the condition lets through. *)
Lemma input_loop_sound (fuel : nat) (io io' : console) (x : Z) :
  input_loop rejected msg fuel io = Some (x, io') -> rejected x = false.
Proof.
  revert io. induction fuel as [| fuel IH]; intros io; [discriminate |].
  simpl. destruct (Cin.extract_int (cin io)) as [[y |] cin'].
  - destruct (rejected y) eqn:Hy; [apply IH |].
    now intros [= <- _].
  - apply IH.
Qed.

(** It goes through the body as long as the condition holds, and ends
    with the first attempt on which it does not. *)
Lemma input_loop_until (n : nat) (io : console) (x : Z) :
  (forall i, (i < n)%nat ->
     loops_on rejected (attempt (Nat.iter i (reprompt msg) io)) = true) ->
  attempt (Nat.iter n (reprompt msg) io) = Some x ->
  rejected x = false ->
  forall fuel, (n < fuel)%nat ->
    input_loop rejected msg fuel io
    = Some (x, {| cin := snd (Cin.extract_int (cin (Nat.iter n (reprompt msg) io)));
                  cout := (cout io ++ times n msg)%string |}).
Proof.
  intros Hloops Hlast Hx. rewrite <- cout_turns.
  revert io Hloops Hlast.
  induction n as [| n IH]; intros io Hloops Hlast fuel Hfuel;
    (destruct fuel as [| fuel]; [lia |]); rewrite input_loop_step.
  - simpl in *. now rewrite Hlast; simpl; rewrite Hx.
  - pose proof (Hloops 0%nat ltac:(lia)) as Hfirst. simpl in Hfirst.
    rewrite Hfirst. rewrite Nat.iter_succ_r in *.
    apply IH; [| exact Hlast | lia].
    intros i Hi. specialize (Hloops (S i)).
    rewrite Nat.iter_succ_r in Hloops. apply Hloops. lia.
Qed.

(** On an input that never satisfies it, the loop does not end. *)
Lemma input_loop_never (io : console) :
  (forall i, loops_on rejected (attempt (Nat.iter i (reprompt msg) io)) = true) ->
  forall fuel, input_loop rejected msg fuel io = None.
Proof.
  intros Hloops fuel. revert io Hloops.
  induction fuel as [| fuel IH]; intros io Hloops; [reflexivity |].
  pose proof (Hloops 0%nat) as Hfirst. simpl in Hfirst.
  rewrite input_loop_step, Hfirst.
  apply IH. intros i. specialize (Hloops (S i)).
  now rewrite Nat.iter_succ_r in Hloops.
Qed.

End InputLoopFacts.

Lemma year_rejected_spec (year : Z) :
  year_rejected year = false <-> (1970 <= year <= 2024)%Z.
Proof. unfold year_rejected. rewrite orb_false_iff. lia. Qed.

Lemma accident_rejected_spec (accidentCount : Z) :
  accident_rejected accidentCount = false <-> (0 <= accidentCount)%Z.
Proof. unfold accident_rejected. lia. Qed.

(** C6.  The year loop goes round, printing its message each time, while
    [cin >> year] fails or gives a year below 1970 or above 2024, and ends
    with the first year in [1970, 2024]; it never ends with another year.
    1970 and 2024 are accepted, 1969 and 2025 are not, and neither is 1900,
    although the message printed at each turn asks for "a year between 1900
    and 2024". *)
Theorem year_loop_range :
  (forall (io : console) (n : nat) (year : Z),
      (forall i, (i < n)%nat ->
         loops_on year_rejected
           (attempt (Nat.iter i (reprompt year_message) io)) = true) ->
      attempt (Nat.iter n (reprompt year_message) io) = Some year ->
      (1970 <= year <= 2024)%Z ->
      forall fuel, (n < fuel)%nat ->
        exists cin',
          read_year fuel io
          = Some (year,
                  {| cin := cin';
                     cout := (cout io ++ times n year_message)%string |}))
  /\ (forall fuel io y io', read_year fuel io = Some (y, io') ->
        (1970 <= y <= 2024)%Z)
  /\ (forall r, loops_on year_rejected r = false
        <-> exists y, r = Some y /\ (1970 <= y <= 2024)%Z)
  /\ (year_rejected 1970 = false /\ year_rejected 2024 = false
      /\ year_rejected 1969 = true /\ year_rejected 2025 = true
      /\ year_rejected 1900 = true)
  /\ (fst (session 1 ["1970"]) = Some 1970%Z
      /\ fst (session 1 ["2024"]) = Some 2024%Z
      /\ session 2 ["1969"; "2000"] = (Some 2000%Z, year_message)
      /\ session 2 ["2025"; "2000"] = (Some 2000%Z, year_message)
      /\ session 2 ["1900"; "2000"] = (Some 2000%Z, year_message))%string
  /\ year_message
     = "Invalid year. Please enter a year between 1900 and 2024: "%string.
Proof.
  split; [| split; [| split; [| split; [| split]]]].
  - intros io n year Hloops Hlast Hyear fuel Hfuel. eexists.
    unfold read_year.
    apply input_loop_until; auto. now apply year_rejected_spec.
  - intros fuel io y io' Hret. apply year_rejected_spec.
    exact (input_loop_sound _ _ _ _ Hret).
  - intros [y |]; simpl.
    + rewrite year_rejected_spec. split; [eauto |].
      now intros (y' & [= ->] & Hy).
    + split; [discriminate | now intros (y & [=] & _)].
  - repeat split; reflexivity.
  - repeat split; reflexivity.
  - reflexivity.
Qed.

Lemma year_loop_range_witness :
  exists cin',
    read_year 5 (typed_lines ["abc"; "1969"; "2025"; "1900"; "1970"]%string)
    = Some (1970%Z,
            {| cin := cin';
               cout := ("" ++ times 4 year_message)%string |}).
Proof.
  refine (proj1 year_loop_range
            (typed_lines ["abc"; "1969"; "2025"; "1900"; "1970"]%string)
            4%nat 1970%Z _ _ _ 5%nat _).
  - intros [| [| [| [| i]]]] Hi; try reflexivity. lia.
  - reflexivity.
  - lia.
  - lia.
Defined.

(** At the end of the input the loop goes round for ever. *)
Lemma year_loop_end_of_input (fuel : nat) :
  read_year fuel (typed_lines ["1969"; "2025"]%string) = None.
Proof.
  unfold read_year. apply input_loop_never. intros i.
  assert (Hafter : forall j,
             cin (Nat.iter (2 + j) (reprompt year_message)
                    (typed_lines ["1969"; "2025"]%string))
             = {| Cin.buffer := ""; Cin.failbit := false |}).
  { induction j as [| j IH]; [reflexivity |].
    change (2 + S j)%nat with (S (2 + j)).
    rewrite Nat.iter_succ. unfold reprompt at 1. cbn [cin].
    now rewrite IH. }
  destruct i as [| [| i]]; [reflexivity | reflexivity |].
  change (S (S i)) with (2 + i)%nat. unfold attempt. now rewrite Hafter.
Qed.

(** What [main] builds from the two loops is a validated vehicle. *)
Lemma main_vehicle_validated (fuel1 fuel2 : nat) (io1 io1' io2 io2' : console)
    (make model : string) (year accidentCount : Z) (type : VehicleType)
    (isCommercial : bool) :
  read_year fuel1 io1 = Some (year, io1') ->
  read_accident_count fuel2 io2 = Some (accidentCount, io2') ->
  validated (mkVehicle make model year type accidentCount isCommercial).
Proof.
  intros Hy%input_loop_sound Ha%input_loop_sound.
  apply year_rejected_spec in Hy. apply accident_rejected_spec in Ha.
  split; assumption.
Qed.

(** * More of the program

    ** Numerals and [cin >> x] *)

Unset Implicit Arguments.

Lemma digit_cases (d : Z) :
  (0 <= d < 10)%Z ->
  In d [0; 1; 2; 3; 4; 5; 6; 7; 8; 9]%Z.
Proof.
  intros Hd. simpl.
  assert (d = 0 \/ d = 1 \/ d = 2 \/ d = 3 \/ d = 4 \/ d = 5 \/ d = 6
          \/ d = 7 \/ d = 8 \/ d = 9)%Z by lia.
  intuition.
Qed.

Lemma digit_digit_char (d : Z) :
  (0 <= d < 10)%Z -> Cin.digit (digit_char d) = Some d.
Proof.
  intros Hd%digit_cases. simpl in Hd.
  repeat (destruct Hd as [<- | Hd]; [reflexivity |]). contradiction.
Qed.

Lemma digit_not_space (c : ascii) (d : Z) :
  Cin.digit c = Some d -> Cin.isspace c = false.
Proof.
  unfold Cin.digit, Cin.isspace.
  destruct ((48 <=? Z.of_N (N_of_ascii c)) && (Z.of_N (N_of_ascii c) <=? 57))%Z
    eqn:Hrange; [| discriminate].
  intros _. apply andb_true_iff in Hrange as [Hlo%Z.leb_le Hhi%Z.leb_le].
  apply orb_false_iff. split.
  - apply andb_false_iff. right. apply N.leb_gt. lia.
  - apply N.eqb_neq. lia.
Qed.

Lemma digits_step (c : ascii) (d : Z) (tail : string) (acc : option Z) :
  Cin.digit c = Some d ->
  Cin.digits (String c tail) acc
  = Cin.digits tail
      (Some (10 * match acc with Some a => a | None => 0 end + d)%Z).
Proof. intros Hd. simpl. now rewrite Hd. Qed.

Lemma digits_stop (tail : string) (acc : option Z) :
  starts_with_digit tail = false -> Cin.digits tail acc = (acc, tail).
Proof.
  destruct tail as [| c tail]; simpl; [reflexivity |].
  now destruct (Cin.digit c).
Qed.

Lemma show_digits_S (fuel : nat) (n : Z) (tail : string) :
  show_digits (S fuel) n tail
  = if (n <? 10)%Z then String (digit_char (n mod 10)) tail
    else show_digits fuel (n / 10) (String (digit_char (n mod 10)) tail).
Proof. reflexivity. Qed.

(** Reading back the digits of [n]. *)
Lemma show_digits_read (fuel : nat) :
  forall (n : Z) (tail : string),
    (0 <= n < 10 ^ Z.of_nat (S fuel))%Z ->
    Cin.digits (show_digits (S fuel) n tail) None
    = Cin.digits tail (Some n).
Proof.
  induction fuel as [| fuel IH]; intros n tail Hn.
  - change (10 ^ Z.of_nat 1)%Z with 10%Z in Hn.
    rewrite show_digits_S. destruct (Z.ltb_spec n 10) as [_ | Hge]; [| lia].
    rewrite (digits_step _ (n mod 10)%Z)
        by (apply digit_digit_char, Z.mod_pos_bound; lia).
    rewrite Z.mod_small by lia. reflexivity.
  - rewrite show_digits_S.
    destruct (Z.ltb_spec n 10) as [Hlt | Hge].
    + rewrite (digits_step _ (n mod 10)%Z)
        by (apply digit_digit_char, Z.mod_pos_bound; lia).
      rewrite Z.mod_small by lia. reflexivity.
    + rewrite IH.
      * rewrite (digits_step _ (n mod 10)%Z)
          by (apply digit_digit_char; apply Z.mod_pos_bound; lia).
        f_equal. f_equal. rewrite (Z.div_mod n 10) at 3 by lia. reflexivity.
      * split; [apply Z.div_pos; lia |].
        apply Z.div_lt_upper_bound; [lia |].
        rewrite (Nat2Z.inj_succ (S fuel)), Z.pow_succ_r in Hn by lia. lia.
Qed.

Lemma show_digits_app (fuel : nat) :
  forall (n : Z) (tail : string),
    show_digits fuel n tail
    = (show_digits fuel n EmptyString ++ tail)%string.
Proof.
  induction fuel as [| fuel IH]; intros n tail; [reflexivity |].
  rewrite !show_digits_S. destruct (n <? 10)%Z; [reflexivity |].
  rewrite IH, (IH _ (String _ EmptyString)), append_assoc. reflexivity.
Qed.

(** The first character of a numeral without sign is a digit. *)
Lemma show_digits_head (fuel : nat) :
  forall (n : Z) (tail : string),
    exists c d rest,
      show_digits (S fuel) n tail = String c rest /\ Cin.digit c = Some d.
Proof.
  induction fuel as [| fuel IH]; intros n tail.
  - rewrite show_digits_S. exists (digit_char (n mod 10)), (n mod 10)%Z.
    destruct (n <? 10)%Z; eexists; (split; [reflexivity |]);
      apply digit_digit_char, Z.mod_pos_bound; lia.
  - rewrite show_digits_S.
    destruct (n <? 10)%Z; [| apply IH].
    exists (digit_char (n mod 10)), (n mod 10)%Z, tail.
    split; [reflexivity |]. apply digit_digit_char, Z.mod_pos_bound; lia.
Qed.

Lemma enough_digits (n : Z) :
  (0 <= n)%Z -> (0 <= n < 10 ^ Z.of_nat (S (Z.to_nat (Z.log2 n))))%Z.
Proof.
  intros Hn. split; [exact Hn |].
  rewrite Nat2Z.inj_succ, Z2Nat.id by apply Z.log2_nonneg.
  destruct (Z.eq_dec n 0) as [-> | Hpos]; [reflexivity |].
  destruct (Z.log2_spec n) as [_ Hup]; [lia |].
  eapply Z.lt_le_trans; [exact Hup |].
  apply Z.pow_le_mono_l. pose proof (Z.log2_nonneg n). lia.
Qed.

Lemma skipws_blank (ws s : string) :
  blank ws = true -> Cin.skipws (ws ++ s) = Cin.skipws s.
Proof.
  induction ws as [| c ws IH]; simpl; [reflexivity |].
  intros [Hc Hws]%andb_true_iff. rewrite Hc. auto.
Qed.

Lemma skipws_head (c : ascii) (s : string) :
  Cin.isspace c = false -> Cin.skipws (String c s) = String c s.
Proof. intros Hc. simpl. now rewrite Hc. Qed.

(** The sign test of [cin >> x] on a digit. *)
Lemma digit_no_sign (c : ascii) (d : Z) :
  Cin.digit c = Some d ->
  c <> "-"%char /\ c <> "+"%char.
Proof. intros Hd. split; intros ->; discriminate. Qed.

Lemma extract_unsigned (c : ascii) (d : Z) (ws s : string) :
  blank ws = true ->
  Cin.digit c = Some d ->
  Cin.extract_int {| Cin.buffer := (ws ++ String c s)%string;
                     Cin.failbit := false |}
  = match Cin.digits (String c s) None with
    | (Some n, rest) =>
        if ((INT_MIN <=? n) && (n <=? INT_MAX))%Z
        then (Some n, {| Cin.buffer := rest; Cin.failbit := false |})
        else (None, {| Cin.buffer := rest; Cin.failbit := true |})
    | (None, rest) => (None, {| Cin.buffer := rest; Cin.failbit := true |})
    end.
Proof.
  intros Hws Hd. unfold Cin.extract_int. cbn [Cin.buffer Cin.failbit].
  rewrite (skipws_blank _ _ Hws), (skipws_head _ _ (digit_not_space _ _ Hd)).
  destruct (digit_no_sign _ _ Hd) as [Hminus Hplus].
  destruct c as [[] [] [] [] [] [] [] []];
    try (exfalso; apply Hminus; reflexivity);
    try (exfalso; apply Hplus; reflexivity);
    reflexivity.
Qed.

Lemma extract_negative (ws s : string) :
  blank ws = true ->
  Cin.extract_int {| Cin.buffer := (ws ++ String "-"%char s)%string;
                     Cin.failbit := false |}
  = match Cin.digits s None with
    | (Some n, rest) =>
        if ((INT_MIN <=? - n) && (- n <=? INT_MAX))%Z
        then (Some (- n)%Z, {| Cin.buffer := rest; Cin.failbit := false |})
        else (None, {| Cin.buffer := rest; Cin.failbit := true |})
    | (None, rest) => (None, {| Cin.buffer := rest; Cin.failbit := true |})
    end.
Proof.
  intros Hws. unfold Cin.extract_int. cbn [Cin.buffer Cin.failbit].
  rewrite (skipws_blank _ _ Hws). reflexivity.
Qed.

(** Typing the numeral of an [int], after any white space and before
    something that is no digit, makes [cin >> x] store that [int] and stop
    right after the numeral. *)
Lemma extract_numeral (ws rest : string) (z : Z) :
  blank ws = true ->
  int_range z ->
  starts_with_digit rest = false ->
  Cin.extract_int {| Cin.buffer := (ws ++ numeral z ++ rest)%string;
                     Cin.failbit := false |}
  = (Some z, {| Cin.buffer := rest; Cin.failbit := false |}).
Proof.
  intros Hws Hz Hrest. unfold numeral.
  destruct (Z.ltb_spec z 0) as [Hneg | Hpos].
  - change (String "-"%char ?s ++ rest)%string
      with (String "-"%char (s ++ rest)).
    rewrite <- show_digits_app.
    rewrite (extract_negative _ _ Hws).
    rewrite show_digits_read by (apply enough_digits; lia).
    rewrite (digits_stop _ _ Hrest), Z.opp_involutive.
    destruct Hz as [Hlo%Z.leb_le Hhi%Z.leb_le]. now rewrite Hlo, Hhi.
  - rewrite <- show_digits_app.
    destruct (show_digits_head (Z.to_nat (Z.log2 z)) z rest)
      as (c & d & s & Hshow & Hd).
    pose proof (show_digits_read _ z rest (enough_digits z Hpos)) as Hread.
    rewrite Hshow in *.
    rewrite (extract_unsigned _ _ _ _ Hws Hd), Hread, (digits_stop _ _ Hrest).
    destruct Hz as [Hlo%Z.leb_le Hhi%Z.leb_le]. now rewrite Hlo, Hhi.
Qed.

(** Whatever [cin >> x] stores is an [int]. *)
Lemma extract_int_range (inp inp' : Cin.istream) (z : Z) :
  Cin.extract_int inp = (Some z, inp') -> int_range z.
Proof.
  unfold Cin.extract_int.
  destruct (Cin.failbit inp); [discriminate |].
  destruct (Cin.skipws (Cin.buffer inp)) as [| c s].
  - simpl. discriminate.
  - set (signed := match String c s with
                   | String "-"%char rest => (true, rest)
                   | String "+"%char rest => (false, rest)
                   | _ => (false, String c s)
                   end).
    destruct signed as [negative s'].
    destruct (Cin.digits s' None) as [[n |] rest]; [| discriminate].
    destruct ((INT_MIN <=? (if negative then - n else n))
              && ((if negative then - n else n) <=? INT_MAX))%Z eqn:Hrange;
      [| discriminate].
    intros [= <- _].
    apply andb_true_iff in Hrange as [Hlo%Z.leb_le Hhi%Z.leb_le].
    now split.
Qed.

(** ** Lines *)

Lemma nl_append (s : string) : (nl ++ s)%string = String "010"%char s.
Proof. reflexivity. Qed.

Lemma drop_line_line (line tail : string) :
  one_line line = true ->
  Cin.drop_line (line ++ nl ++ tail) = tail.
Proof.
  induction line as [| c line IH]; simpl; [reflexivity |].
  intros [Hc Hline]%andb_true_iff.
  apply negb_true_iff in Hc. rewrite Hc. auto.
Qed.

Lemma split_line_line (line tail : string) :
  one_line line = true ->
  CinText.split_line (line ++ nl ++ tail) = (line, tail).
Proof.
  induction line as [| c line IH]; [reflexivity |].
  cbn [CinText.split_line String.append one_line].
  intros [Hc Hline]%andb_true_iff.
  apply negb_true_iff in Hc. rewrite Hc, (IH Hline). reflexivity.
Qed.

Lemma getline_line (line tail : string) :
  one_line line = true ->
  CinText.getline {| Cin.buffer := (line ++ nl ++ tail)%string;
                     Cin.failbit := false |}
  = (line, {| Cin.buffer := tail; Cin.failbit := false |}).
Proof.
  intros Hline. destruct line as [| c line]; [reflexivity |].
  change (CinText.getline _)
    with (let (l, t) := CinText.split_line (String c line ++ nl ++ tail) in
          (l, {| Cin.buffer := t; Cin.failbit := false |})).
  now rewrite (split_line_line _ _ Hline).
Qed.

Lemma blank_suffix (ws s : string) :
  blank (ws ++ s) = true -> blank s = true.
Proof.
  induction ws as [| c ws IH]; simpl; [auto |].
  intros [_ H]%andb_true_iff. auto.
Qed.

Lemma blank_drop_line (s : string) :
  blank s = true -> blank (Cin.drop_line s) = true.
Proof.
  induction s as [| c s IH]; simpl; [reflexivity |].
  intros [_ Hs]%andb_true_iff. destruct (Ascii.eqb c "010"); auto.
Qed.

Lemma blank_skipws (s : string) :
  blank s = true -> Cin.skipws s = EmptyString.
Proof.
  induction s as [| c s IH]; simpl; [reflexivity |].
  intros [Hc Hs]%andb_true_iff. rewrite Hc. auto.
Qed.

(** ** What [cin >> x] refuses *)

(** Text: the first character after the white space is no digit and no
    sign.  Nothing of it is taken. *)
Lemma extract_text (ws s : string) (c : ascii) :
  blank ws = true ->
  Cin.isspace c = false ->
  Cin.digit c = None ->
  c <> "-"%char -> c <> "+"%char ->
  Cin.extract_int {| Cin.buffer := (ws ++ String c s)%string;
                     Cin.failbit := false |}
  = (None, {| Cin.buffer := String c s; Cin.failbit := true |}).
Proof.
  intros Hws Hc Hd Hminus Hplus.
  unfold Cin.extract_int. cbn [Cin.buffer Cin.failbit].
  rewrite (skipws_blank _ _ Hws), (skipws_head _ _ Hc).
  assert (Hdigits : Cin.digits (String c s) None = (None, String c s))
    by (simpl; now rewrite Hd).
  destruct c as [[] [] [] [] [] [] [] []];
    try (exfalso; apply Hminus; reflexivity);
    try (exfalso; apply Hplus; reflexivity);
    cbv beta iota; rewrite Hdigits; reflexivity.
Qed.

(** A numeral that no [int] holds: it is taken, and the extraction
    fails. *)
Lemma extract_overflow (ws rest : string) (z : Z) :
  blank ws = true ->
  ~ int_range z ->
  starts_with_digit rest = false ->
  Cin.extract_int {| Cin.buffer := (ws ++ numeral z ++ rest)%string;
                     Cin.failbit := false |}
  = (None, {| Cin.buffer := rest; Cin.failbit := true |}).
Proof.
  intros Hws Hz Hrest. unfold numeral.
  assert (Hout : forall v, ~ int_range v ->
            ((INT_MIN <=? v) && (v <=? INT_MAX))%Z = false).
  { intros v Hv. apply not_true_iff_false.
    intros [Hlo%Z.leb_le Hhi%Z.leb_le]%andb_true_iff. now apply Hv. }
  destruct (Z.ltb_spec z 0) as [Hneg | Hpos].
  - change (String "-"%char ?s ++ rest)%string
      with (String "-"%char (s ++ rest)).
    rewrite <- show_digits_app.
    rewrite (extract_negative _ _ Hws).
    rewrite show_digits_read by (apply enough_digits; lia).
    rewrite (digits_stop _ _ Hrest), Z.opp_involutive.
    now rewrite (Hout z Hz).
  - rewrite <- show_digits_app.
    destruct (show_digits_head (Z.to_nat (Z.log2 z)) z rest)
      as (c & d & s & Hshow & Hd).
    pose proof (show_digits_read _ z rest (enough_digits z Hpos)) as Hread.
    rewrite Hshow in *.
    rewrite (extract_unsigned _ _ _ _ Hws Hd), Hread, (digits_stop _ _ Hrest).
    now rewrite (Hout z Hz).
Qed.

(** At the end of the input, white space apart, nothing is extracted,
    whatever the state of the stream. *)
Lemma extract_int_blank (inp : Cin.istream) :
  blank (Cin.buffer inp) = true ->
  fst (Cin.extract_int inp) = None
  /\ Cin.failbit (snd (Cin.extract_int inp)) = true
  /\ blank (Cin.buffer (snd (Cin.extract_int inp))) = true.
Proof.
  intros Hblank. unfold Cin.extract_int.
  destruct (Cin.failbit inp) eqn:Hfail; [simpl; auto |].
  rewrite (blank_skipws _ Hblank). simpl. auto.
Qed.

Lemma extract_char_blank (inp : Cin.istream) :
  blank (Cin.buffer inp) = true ->
  fst (CinText.extract_char inp) = None
  /\ Cin.failbit (snd (CinText.extract_char inp)) = true
  /\ blank (Cin.buffer (snd (CinText.extract_char inp))) = true.
Proof.
  intros Hblank. unfold CinText.extract_char.
  destruct (Cin.failbit inp) eqn:Hfail; [simpl; auto |].
  rewrite (blank_skipws _ Hblank). simpl. auto.
Qed.

Lemma extract_char_head (ws s : string) (c : ascii) :
  blank ws = true ->
  Cin.isspace c = false ->
  CinText.extract_char {| Cin.buffer := (ws ++ String c s)%string;
                          Cin.failbit := false |}
  = (Some c, {| Cin.buffer := s; Cin.failbit := false |}).
Proof.
  intros Hws Hc. unfold CinText.extract_char. cbn [Cin.buffer Cin.failbit].
  now rewrite (skipws_blank _ _ Hws), (skipws_head _ _ Hc).
Qed.

Lemma ignore_line_line (line tail : string) :
  one_line line = true ->
  Cin.ignore_line {| Cin.buffer := (line ++ nl ++ tail)%string;
                     Cin.failbit := false |}
  = {| Cin.buffer := tail; Cin.failbit := false |}.
Proof.
  intros Hline. unfold Cin.ignore_line. cbn [Cin.buffer Cin.failbit].
  now rewrite (drop_line_line _ _ Hline).
Qed.

(** ** The accident loop *)

Lemma attempt_numeral (out ws rest : string) (z : Z) :
  blank ws = true -> int_range z -> starts_with_digit rest = false ->
  Cin.extract_int
    (cin {| cin := {| Cin.buffer := (ws ++ numeral z ++ rest)%string;
                      Cin.failbit := false |};
            cout := out |})
  = (Some z, {| Cin.buffer := rest; Cin.failbit := false |}).
Proof. intros. cbn [cin]. now apply extract_numeral. Qed.

(** One turn of an input loop on a numeral that it accepts. *)
Lemma input_loop_accepts (rejected : Z -> bool) (msg : string)
    (fuel : nat) (out ws rest : string) (z : Z) :
  blank ws = true -> int_range z -> starts_with_digit rest = false ->
  rejected z = false ->
  input_loop rejected msg (S fuel)
    {| cin := {| Cin.buffer := (ws ++ numeral z ++ rest)%string;
                 Cin.failbit := false |};
       cout := out |}
  = Some (z, {| cin := {| Cin.buffer := rest; Cin.failbit := false |};
                cout := out |}).
Proof.
  intros Hws Hz Hrest Hok. cbn [input_loop].
  rewrite (attempt_numeral out ws rest z Hws Hz Hrest).
  now rewrite Hok.
Qed.

(** One turn on a numeral that it refuses, or that no [int] holds: the
    rest of the line goes with it. *)
Lemma input_loop_refuses (rejected : Z -> bool) (msg : string)
    (fuel : nat) (out ws line tail : string) (z : Z) :
  blank ws = true ->
  starts_with_digit (line ++ nl ++ tail) = false ->
  one_line line = true ->
  (int_range z -> rejected z = true) ->
  input_loop rejected msg (S fuel)
    {| cin := {| Cin.buffer := (ws ++ numeral z ++ line ++ nl ++ tail)%string;
                 Cin.failbit := false |};
       cout := out |}
  = input_loop rejected msg fuel
      {| cin := {| Cin.buffer := tail; Cin.failbit := false |};
         cout := (out ++ msg)%string |}.
Proof.
  intros Hws Hrest Hline Hno. cbn [input_loop]. cbn [cin].
  assert (Hnext : forall r,
             Cin.extract_int
               {| Cin.buffer := (ws ++ numeral z ++ line ++ nl ++ tail)%string;
                  Cin.failbit := false |}
             = (r, {| Cin.buffer := (line ++ nl ++ tail)%string;
                      Cin.failbit := match r with
                                     | Some _ => false
                                     | None => true
                                     end |}) ->
             reprompt msg
               {| cin := {| Cin.buffer :=
                              (ws ++ numeral z ++ line ++ nl ++ tail)%string;
                            Cin.failbit := false |};
                  cout := out |}
             = {| cin := {| Cin.buffer := tail; Cin.failbit := false |};
                  cout := (out ++ msg)%string |}).
  { intros r Hr. unfold reprompt. cbn [cin cout]. rewrite Hr.
    cbn [snd]. unfold Cin.clear. cbn [Cin.buffer].
    now rewrite (ignore_line_line _ _ Hline). }
  destruct (Z_le_dec INT_MIN z) as [Hlo |];
    [destruct (Z_le_dec z INT_MAX) as [Hhi |] |].
  - assert (Hz : int_range z) by (split; assumption).
    rewrite (extract_numeral ws _ z Hws Hz Hrest), (Hno Hz).
    now rewrite (Hnext (Some z) (extract_numeral ws _ z Hws Hz Hrest)).
  - assert (Hz : ~ int_range z) by (intros [_ H]; contradiction).
    rewrite (extract_overflow ws _ z Hws Hz Hrest).
    now rewrite (Hnext None (extract_overflow ws _ z Hws Hz Hrest)).
  - assert (Hz : ~ int_range z) by (intros [H _]; contradiction).
    rewrite (extract_overflow ws _ z Hws Hz Hrest).
    now rewrite (Hnext None (extract_overflow ws _ z Hws Hz Hrest)).
Qed.

(** One turn on text. *)
Lemma input_loop_text (rejected : Z -> bool) (msg : string)
    (fuel : nat) (out ws line tail : string) (c : ascii) :
  blank ws = true ->
  Cin.isspace c = false -> Cin.digit c = None ->
  c <> "-"%char -> c <> "+"%char ->
  one_line (String c line) = true ->
  input_loop rejected msg (S fuel)
    {| cin := {| Cin.buffer := (ws ++ String c (line ++ nl ++ tail))%string;
                 Cin.failbit := false |};
       cout := out |}
  = input_loop rejected msg fuel
      {| cin := {| Cin.buffer := tail; Cin.failbit := false |};
         cout := (out ++ msg)%string |}.
Proof.
  intros Hws Hc Hd Hminus Hplus Hline. cbn [input_loop]. cbn [cin].
  rewrite (extract_text ws _ c Hws Hc Hd Hminus Hplus).
  unfold reprompt. cbn [cin cout].
  rewrite (extract_text ws _ c Hws Hc Hd Hminus Hplus).
  cbn [snd]. unfold Cin.clear. cbn [Cin.buffer].
  change (String c (line ++ nl ++ tail))
    with (String c line ++ nl ++ tail)%string.
  now rewrite (ignore_line_line _ _ Hline).
Qed.

Lemma input_loop_int (rejected : Z -> bool) (msg : string) (fuel : nat)
    (io io' : console) (x : Z) :
  input_loop rejected msg fuel io = Some (x, io') -> int_range x.
Proof.
  revert io. induction fuel as [| fuel IH]; intros io; [discriminate |].
  cbn [input_loop].
  destruct (Cin.extract_int (cin io)) as [[y |] cin'] eqn:Hextract.
  - destruct (rejected y); [apply IH |].
    intros [= <- _]. exact (extract_int_range _ _ _ Hextract).
  - apply IH.
Qed.

(** X1.  The accident loop (lines 185-189) ends only with a count from 0
    to INT_MAX.  A numeral in that range is taken as it is, and what
    follows it stays in the input.  A negative numeral, a numeral above
    INT_MAX and a text are refused the same way: the message is printed,
    the rest of the line is dropped and the next line is read. *)
Theorem accident_loop_lines :
  (forall fuel io a io',
      read_accident_count fuel io = Some (a, io') ->
      (0 <= a <= INT_MAX)%Z)
  /\ (forall fuel out ws rest z,
        blank ws = true -> starts_with_digit rest = false ->
        (0 <= z <= INT_MAX)%Z ->
        read_accident_count (S fuel)
          {| cin := {| Cin.buffer := (ws ++ numeral z ++ rest)%string;
                       Cin.failbit := false |};
             cout := out |}
        = Some (z, {| cin := {| Cin.buffer := rest; Cin.failbit := false |};
                      cout := out |}))
  /\ (forall fuel out ws line tail z,
        blank ws = true ->
        starts_with_digit (line ++ nl ++ tail) = false ->
        one_line line = true ->
        (z < 0 \/ INT_MAX < z)%Z ->
        read_accident_count (S fuel)
          {| cin := {| Cin.buffer :=
                         (ws ++ numeral z ++ line ++ nl ++ tail)%string;
                       Cin.failbit := false |};
             cout := out |}
        = read_accident_count fuel
            {| cin := {| Cin.buffer := tail; Cin.failbit := false |};
               cout := (out ++ accident_message)%string |})
  /\ (forall fuel out ws line tail c,
        blank ws = true ->
        Cin.isspace c = false -> Cin.digit c = None ->
        c <> "-"%char -> c <> "+"%char ->
        one_line (String c line) = true ->
        read_accident_count (S fuel)
          {| cin := {| Cin.buffer :=
                         (ws ++ String c (line ++ nl ++ tail))%string;
                       Cin.failbit := false |};
             cout := out |}
        = read_accident_count fuel
            {| cin := {| Cin.buffer := tail; Cin.failbit := false |};
               cout := (out ++ accident_message)%string |}).
Proof.
  unfold read_accident_count. split; [| split; [| split]].
  - intros fuel io a io' Hret.
    pose proof (input_loop_sound _ _ _ _ Hret) as Hok.
    apply accident_rejected_spec in Hok.
    destruct (input_loop_int _ _ _ _ _ _ Hret) as [_ Hhi]. lia.
  - intros fuel out ws rest z Hws Hrest Hz.
    apply input_loop_accepts; auto.
    + unfold int_range, INT_MIN in *. lia.
    + apply accident_rejected_spec. lia.
  - intros fuel out ws line tail z Hws Hrest Hline Hz.
    apply input_loop_refuses; auto.
    intros [_ Hhi]. unfold accident_rejected. apply Z.ltb_lt. lia.
  - intros fuel out ws line tail c Hws Hc Hd Hminus Hplus Hline.
    now apply input_loop_text.
Qed.

Lemma accident_loop_lines_witness :
  read_accident_count 3
    (typed_lines ["-1"; "2147483648 or so"; "7 of them"; "2"]%string)
  = Some (7%Z,
          {| cin := {| Cin.buffer := (" of them" ++ nl ++ "2" ++ nl)%string;
                       Cin.failbit := false |};
             cout := (accident_message ++ accident_message)%string |}).
Proof.
  destruct accident_loop_lines as (_ & Haccept & Hrefuse & _).
  change (typed_lines ["-1"; "2147483648 or so"; "7 of them"; "2"]%string)
    with {| cin := {| Cin.buffer :=
                        ("" ++ numeral (-1) ++ "" ++ nl
                           ++ "2147483648 or so" ++ nl ++ "7 of them" ++ nl
                           ++ "2" ++ nl)%string;
                      Cin.failbit := false |};
            cout := ""%string |}.
  rewrite Hrefuse; [| reflexivity | reflexivity | reflexivity | lia].
  change ("2147483648 or so" ++ nl ++ "7 of them" ++ nl ++ "2" ++ nl)%string
    with ("" ++ numeral 2147483648 ++ " or so" ++ nl
             ++ "7 of them" ++ nl ++ "2" ++ nl)%string.
  rewrite Hrefuse;
    [| reflexivity | reflexivity | reflexivity | unfold INT_MAX; lia].
  change ("7 of them" ++ nl ++ "2" ++ nl)%string
    with ("" ++ numeral 7 ++ " of them" ++ nl ++ "2" ++ nl)%string.
  rewrite Haccept; [reflexivity | reflexivity | reflexivity |].
  unfold INT_MAX; lia.
Defined.

(** ** [getVehicleTypeInput] *)

Lemma choice_range (t : VehicleType) : int_range (choice t).
Proof. destruct t; unfold int_range, INT_MIN, INT_MAX; simpl; lia. Qed.

Lemma type_of_choice_choice (t : VehicleType) :
  type_of_choice (Some (choice t)) = Some t.
Proof. now destruct t. Qed.

Lemma type_of_choice_inv (r : option Z) (t : VehicleType) :
  type_of_choice r = Some t -> r = Some (choice t).
Proof.
  destruct r as [[| [[] | [] |] |] |]; simpl; intros [= <-]; reflexivity.
Qed.

Lemma extract_int_failbit (inp : Cin.istream) :
  Cin.failbit (snd (Cin.extract_int inp))
  = match fst (Cin.extract_int inp) with
    | Some _ => false
    | None => true
    end.
Proof.
  unfold Cin.extract_int.
  destruct (Cin.failbit inp) eqn:Hfail; [exact Hfail |].
  destruct (Cin.skipws (Cin.buffer inp)) as [| c s]; [reflexivity |].
  set (signed := match String c s with
                 | String "-"%char rest => (true, rest)
                 | String "+"%char rest => (false, rest)
                 | _ => (false, String c s)
                 end).
  destruct signed as [negative s'].
  destruct (Cin.digits s' None) as [[n |] rest]; [| reflexivity].
  destruct ((INT_MIN <=? (if negative then - n else n))
            && ((if negative then - n else n) <=? INT_MAX))%Z; reflexivity.
Qed.

(** One turn of the loop: it returns on 1, 2 and 3, and goes on from
    [type_retry] otherwise. *)
Lemma type_loop_step (fuel : nat) (io : console) :
  type_loop (S fuel) io
  = match type_of_choice (attempt io) with
    | Some t =>
        Some (t, {| cin := snd (Cin.extract_int (cin io)); cout := cout io |})
    | None => type_loop fuel (type_retry io)
    end.
Proof.
  cbn [type_loop]. unfold type_retry, attempt.
  pose proof (extract_int_failbit (cin io)) as Hfail.
  destruct (Cin.extract_int (cin io)) as [r cin']. cbn [fst snd] in *.
  rewrite Hfail.
  destruct r as [[| [[] | [] |] |] |]; reflexivity.
Qed.

Lemma type_loop_sound (fuel : nat) :
  forall (io io' : console) (t : VehicleType),
    type_loop fuel io = Some (t, io') ->
    exists n,
      (n < fuel)%nat
      /\ (forall i, (i < n)%nat ->
            type_of_choice (attempt (Nat.iter i type_retry io)) = None)
      /\ attempt (Nat.iter n type_retry io) = Some (choice t)
      /\ io' = {| cin := snd (Cin.extract_int
                                (cin (Nat.iter n type_retry io)));
                  cout := cout (Nat.iter n type_retry io) |}.
Proof.
  induction fuel as [| fuel IH]; intros io io' t; [discriminate |].
  rewrite type_loop_step.
  destruct (type_of_choice (attempt io)) as [t0 |] eqn:Hfirst.
  - intros [= <- <-]. exists 0%nat. repeat split; [lia | lia |].
    now apply type_of_choice_inv.
  - intros (n & Hn & Hbefore & Hlast & Hio)%IH.
    exists (S n). rewrite !Nat.iter_succ_r. repeat split; auto; [lia |].
    intros [| i] Hi; [exact Hfirst |].
    rewrite Nat.iter_succ_r. apply Hbefore. lia.
Qed.

(** One turn on a numeral of an [int] other than 1, 2 and 3: what
    follows it stays in the input. *)
Lemma type_loop_wrong_number (fuel : nat) (out ws rest : string) (z : Z) :
  blank ws = true -> int_range z -> starts_with_digit rest = false ->
  z <> 1%Z -> z <> 2%Z -> z <> 3%Z ->
  type_loop (S fuel)
    {| cin := {| Cin.buffer := (ws ++ numeral z ++ rest)%string;
                 Cin.failbit := false |};
       cout := out |}
  = type_loop fuel
      {| cin := {| Cin.buffer := rest; Cin.failbit := false |};
         cout := (out ++ type_invalid_choice)%string |}.
Proof.
  intros Hws Hz Hrest H1 H2 H3.
  rewrite type_loop_step. unfold attempt, type_retry.
  rewrite (attempt_numeral out ws rest z Hws Hz Hrest). cbn [fst snd].
  cbn [Cin.failbit].
  destruct z as [| [[] | [] |] |]; try contradiction; reflexivity.
Qed.

(** One turn on text: the line is dropped. *)
Lemma type_loop_text (fuel : nat) (out ws line tail : string) (c : ascii) :
  blank ws = true ->
  Cin.isspace c = false -> Cin.digit c = None ->
  c <> "-"%char -> c <> "+"%char ->
  one_line (String c line) = true ->
  type_loop (S fuel)
    {| cin := {| Cin.buffer := (ws ++ String c (line ++ nl ++ tail))%string;
                 Cin.failbit := false |};
       cout := out |}
  = type_loop fuel
      {| cin := {| Cin.buffer := tail; Cin.failbit := false |};
         cout := (out ++ type_invalid_input)%string |}.
Proof.
  intros Hws Hc Hd Hminus Hplus Hline.
  rewrite type_loop_step. unfold attempt, type_retry. cbn [cin cout].
  rewrite (extract_text ws _ c Hws Hc Hd Hminus Hplus).
  cbn [fst snd type_of_choice Cin.failbit]. unfold Cin.clear.
  cbn [Cin.buffer].
  change (String c (line ++ nl ++ tail))
    with (String c line ++ nl ++ tail)%string.
  now rewrite (ignore_line_line _ _ Hline).
Qed.

(** One turn on a numeral that no [int] holds: the line is dropped. *)
Lemma type_loop_overflow (fuel : nat) (out ws line tail : string) (z : Z) :
  blank ws = true -> ~ int_range z ->
  starts_with_digit (line ++ nl) = false -> one_line line = true ->
  type_loop (S fuel)
    {| cin := {| Cin.buffer := (ws ++ numeral z ++ line ++ nl ++ tail)%string;
                 Cin.failbit := false |};
       cout := out |}
  = type_loop fuel
      {| cin := {| Cin.buffer := tail; Cin.failbit := false |};
         cout := (out ++ type_invalid_input)%string |}.
Proof.
  intros Hws Hz Hstart Hline.
  rewrite type_loop_step. unfold attempt, type_retry. cbn [cin cout].
  assert (Hstart' : starts_with_digit (line ++ nl ++ tail) = false)
    by (destruct line as [| l line]; [reflexivity | exact Hstart]).
  rewrite (extract_overflow ws _ z Hws Hz Hstart').
  cbn [fst snd type_of_choice Cin.failbit]. unfold Cin.clear.
  cbn [Cin.buffer].
  now rewrite (ignore_line_line _ _ Hline).
Qed.

Lemma type_loop_choice (fuel : nat) (out ws rest : string)
    (t : VehicleType) :
  blank ws = true -> starts_with_digit rest = false ->
  type_loop (S fuel)
    {| cin := {| Cin.buffer := (ws ++ numeral (choice t) ++ rest)%string;
                 Cin.failbit := false |};
       cout := out |}
  = Some (t, {| cin := {| Cin.buffer := rest; Cin.failbit := false |};
                cout := out |}).
Proof.
  intros Hws Hrest. rewrite type_loop_step. unfold attempt.
  rewrite (attempt_numeral out ws rest _ Hws (choice_range t) Hrest).
  cbn [fst snd]. now rewrite type_of_choice_choice.
Qed.

(** X2.  [getVehicleTypeInput] returns CAR, TRUCK or MOTORCYCLE exactly
    when the number it has just read is 1, 2 or 3, after turns on which
    it read nothing of the kind; and typing the number of a type, after
    any white space, selects that type on the first turn, prints the menu
    only, and leaves what follows the number in the input (the rest of the
    line is not dropped). *)
Theorem vehicle_type_selection :
  (forall fuel io t io',
      getVehicleTypeInput fuel io = Some (t, io') ->
      exists n,
        (n < fuel)%nat
        /\ (forall i, (i < n)%nat ->
              type_of_choice
                (attempt (Nat.iter i type_retry (put type_prompt io)))
              = None)
        /\ attempt (Nat.iter n type_retry (put type_prompt io))
           = Some (choice t)
        /\ io' = {| cin := snd (Cin.extract_int
                                  (cin (Nat.iter n type_retry
                                          (put type_prompt io))));
                    cout := cout (Nat.iter n type_retry
                                    (put type_prompt io)) |})
  /\ (forall fuel out ws rest t,
        blank ws = true -> starts_with_digit rest = false ->
        getVehicleTypeInput (S fuel)
          {| cin := {| Cin.buffer := (ws ++ numeral (choice t) ++ rest)%string;
                       Cin.failbit := false |};
             cout := out |}
        = Some (t, {| cin := {| Cin.buffer := rest; Cin.failbit := false |};
                      cout := (out ++ type_prompt)%string |}))
  /\ (choice CAR = 1 /\ choice TRUCK = 2 /\ choice MOTORCYCLE = 3)%Z.
Proof.
  split; [| split].
  - intros fuel io t io'. unfold getVehicleTypeInput. apply type_loop_sound.
  - intros fuel out ws rest t Hws Hrest. unfold getVehicleTypeInput, put.
    cbn [cin cout]. now apply type_loop_choice.
  - repeat split.
Qed.

Lemma vehicle_type_selection_witness :
  getVehicleTypeInput 1
    {| cin := {| Cin.buffer := ("  2 wheels" ++ nl)%string;
                 Cin.failbit := false |};
       cout := ""%string |}
  = Some (TRUCK,
          {| cin := {| Cin.buffer := (" wheels" ++ nl)%string;
                       Cin.failbit := false |};
             cout := type_prompt |}).
Proof.
  exact (proj1 (proj2 vehicle_type_selection) 0%nat ""%string "  "%string
           (" wheels" ++ nl)%string TRUCK eq_refl eq_refl).
Defined.

(** X3.  A wrong answer to the menu is handled in two ways.  After a
    number other than 1, 2 and 3 the function prints "Invalid choice..."
    and reads on where it is, so a choice typed on the same line is taken.
    After a text, or a number that no [int] holds, it prints "Invalid
    input...", drops the whole line, a choice typed on it included, and
    reads on the next line. *)
Theorem vehicle_type_retry :
  (forall fuel out ws sep rest z t,
      blank ws = true -> int_range z ->
      z <> 1%Z -> z <> 2%Z -> z <> 3%Z ->
      blank sep = true -> sep <> EmptyString ->
      starts_with_digit rest = false ->
      getVehicleTypeInput (S (S fuel))
        {| cin := {| Cin.buffer :=
                       (ws ++ numeral z ++ sep
                          ++ numeral (choice t) ++ rest)%string;
                     Cin.failbit := false |};
           cout := out |}
      = Some (t, {| cin := {| Cin.buffer := rest; Cin.failbit := false |};
                    cout := (out ++ type_prompt
                               ++ type_invalid_choice)%string |}))
  /\ (forall fuel out ws c line ws' rest t,
        blank ws = true ->
        Cin.isspace c = false -> Cin.digit c = None ->
        c <> "-"%char -> c <> "+"%char ->
        one_line (String c line) = true ->
        blank ws' = true -> starts_with_digit rest = false ->
        getVehicleTypeInput (S (S fuel))
          {| cin := {| Cin.buffer :=
                         (ws ++ String c (line ++ nl
                            ++ ws' ++ numeral (choice t) ++ rest))%string;
                       Cin.failbit := false |};
             cout := out |}
        = Some (t, {| cin := {| Cin.buffer := rest; Cin.failbit := false |};
                      cout := (out ++ type_prompt
                                 ++ type_invalid_input)%string |}))
  /\ (forall fuel out ws z line ws' rest t,
        blank ws = true -> ~ int_range z ->
        starts_with_digit (line ++ nl) = false -> one_line line = true ->
        blank ws' = true -> starts_with_digit rest = false ->
        getVehicleTypeInput (S (S fuel))
          {| cin := {| Cin.buffer :=
                         (ws ++ numeral z ++ line ++ nl
                            ++ ws' ++ numeral (choice t) ++ rest)%string;
                       Cin.failbit := false |};
             cout := out |}
        = Some (t, {| cin := {| Cin.buffer := rest; Cin.failbit := false |};
                      cout := (out ++ type_prompt
                                 ++ type_invalid_input)%string |})).
Proof.
  split; [| split].
  - intros fuel out ws sep rest z t Hws Hz H1 H2 H3 Hsep Hnonempty Hrest.
    unfold getVehicleTypeInput, put. cbn [cin cout].
    rewrite type_loop_wrong_number; auto.
    + rewrite type_loop_choice by assumption.
      now rewrite append_assoc.
    + destruct sep as [| s sep]; [contradiction |].
      simpl in Hsep. apply andb_true_iff in Hsep as [Hs _].
      simpl. destruct (Cin.digit s) eqn:Hd; [| reflexivity].
      now rewrite (digit_not_space _ _ Hd) in Hs.
  - intros fuel out ws c line ws' rest t Hws Hc Hd Hminus Hplus Hline
      Hws' Hrest.
    unfold getVehicleTypeInput, put. cbn [cin cout].
    rewrite type_loop_text by assumption.
    rewrite type_loop_choice by assumption.
    now rewrite append_assoc.
  - intros fuel out ws z line ws' rest t Hws Hz Hstart Hline Hws' Hrest.
    unfold getVehicleTypeInput, put. cbn [cin cout].
    rewrite type_loop_overflow by assumption.
    rewrite type_loop_choice by assumption.
    now rewrite append_assoc.
Qed.

Lemma vehicle_type_retry_witness :
  getVehicleTypeInput 2
    {| cin := {| Cin.buffer := ("7 3" ++ nl)%string; Cin.failbit := false |};
       cout := ""%string |}
  = Some (MOTORCYCLE,
          {| cin := {| Cin.buffer := nl; Cin.failbit := false |};
             cout := ("" ++ type_prompt ++ type_invalid_choice)%string |})
  /\ getVehicleTypeInput 2
       {| cin := {| Cin.buffer := ("x 3" ++ nl ++ "1" ++ nl)%string;
                    Cin.failbit := false |};
          cout := ""%string |}
     = Some (CAR,
             {| cin := {| Cin.buffer := nl; Cin.failbit := false |};
                cout := ("" ++ type_prompt ++ type_invalid_input)%string |}).
Proof.
  split.
  - refine (proj1 vehicle_type_retry 0%nat ""%string ""%string " "%string nl
              7%Z MOTORCYCLE eq_refl _ _ _ _ eq_refl _ eq_refl);
      try discriminate.
    unfold int_range, INT_MIN, INT_MAX; lia.
  - refine (proj1 (proj2 vehicle_type_retry) 0%nat ""%string ""%string
              "x"%char " 3"%string ""%string nl CAR
              eq_refl eq_refl eq_refl _ _ eq_refl eq_refl eq_refl);
      discriminate.
Defined.

(** ** [getYesNoInput] *)

Lemma tolower_y (c : ascii) :
  Ascii.eqb (tolower c) "y" = true <-> c = "y"%char \/ c = "Y"%char.
Proof.
  destruct c as [[] [] [] [] [] [] [] []]; vm_compute;
    (split; [intros Heq; try discriminate Heq; auto
            | intros [Heq | Heq]; try discriminate Heq; reflexivity]).
Qed.

Lemma tolower_n (c : ascii) :
  Ascii.eqb (tolower c) "n" = true <-> c = "n"%char \/ c = "N"%char.
Proof.
  destruct c as [[] [] [] [] [] [] [] []]; vm_compute;
    (split; [intros Heq; try discriminate Heq; auto
            | intros [Heq | Heq]; try discriminate Heq; reflexivity]).
Qed.

Lemma tolower_tolower (c : ascii) : tolower (tolower c) = tolower c.
Proof. destruct c as [[] [] [] [] [] [] [] []]; reflexivity. Qed.

(** One turn of the loop on a line: its first character that is no white
    space decides, and the rest of the line is dropped. *)
Lemma yes_no_loop_line (fuel : nat) (response : option ascii)
    (out ws line tail : string) (c : ascii) :
  blank ws = true -> Cin.isspace c = false -> one_line line = true ->
  yes_no_loop (S fuel) response
    {| cin := {| Cin.buffer := (ws ++ String c (line ++ nl ++ tail))%string;
                 Cin.failbit := false |};
       cout := out |}
  = if Ascii.eqb (tolower c) "y"
    then Returned
           (true, {| cin := {| Cin.buffer := tail; Cin.failbit := false |};
                     cout := out |})
    else if Ascii.eqb (tolower c) "n"
    then Returned
           (false, {| cin := {| Cin.buffer := tail; Cin.failbit := false |};
                      cout := out |})
    else yes_no_loop fuel (Some (tolower c))
           {| cin := {| Cin.buffer := tail; Cin.failbit := false |};
              cout := (out ++ yes_no_invalid)%string |}.
Proof.
  intros Hws Hc Hline. cbn [yes_no_loop]. cbn [cin cout].
  rewrite (extract_char_head ws _ c Hws Hc).
  rewrite (ignore_line_line _ _ Hline). reflexivity.
Qed.

(** Once the stream has failed, the loop goes round for ever on a
    [response] that is neither y nor n: nothing clears the stream. *)
Lemma yes_no_loop_failed (fuel : nat) :
  forall (c : ascii) (io : console),
    Cin.failbit (cin io) = true ->
    Ascii.eqb (tolower c) "y" = false ->
    Ascii.eqb (tolower c) "n" = false ->
    yes_no_loop fuel (Some c) io = Pending.
Proof.
  induction fuel as [| fuel IH]; intros c io Hfail Hy Hn; [reflexivity |].
  cbn [yes_no_loop]. unfold CinText.extract_char, Cin.ignore_line.
  rewrite Hfail. cbn [Cin.failbit]. rewrite Hfail, Hy, Hn.
  apply IH; [exact Hfail | |]; now rewrite tolower_tolower.
Qed.

(** The same at the end of the input, where the first extraction fails. *)
Lemma yes_no_loop_exhausted (fuel : nat) (c : ascii) (io : console) :
  blank (Cin.buffer (cin io)) = true ->
  Ascii.eqb (tolower c) "y" = false ->
  Ascii.eqb (tolower c) "n" = false ->
  yes_no_loop fuel (Some c) io = Pending.
Proof.
  intros Hblank Hy Hn. destruct fuel as [| fuel]; [reflexivity |].
  cbn [yes_no_loop].
  destruct (extract_char_blank (cin io) Hblank) as (Hnone & Hfail & _).
  destruct (CinText.extract_char (cin io)) as [read cin1].
  cbn [fst snd] in Hnone, Hfail. subst read. rewrite Hy, Hn.
  apply yes_no_loop_failed.
  - unfold put, Cin.ignore_line. cbn [cin]. now rewrite Hfail.
  - now rewrite tolower_tolower.
  - now rewrite tolower_tolower.
Qed.

Lemma skipws_not_blank (s : string) :
  blank s = false -> exists c rest, Cin.skipws s = String c rest.
Proof.
  induction s as [| c s IH]; [discriminate |].
  cbn [blank Cin.skipws]. destruct (Cin.isspace c); [exact IH |].
  intros _. now exists c, s.
Qed.

(** When there is a character to read, what [response] held plays no
    part. *)
Lemma yes_no_loop_fresh (fuel : nat) (response response' : option ascii)
    (io : console) :
  Cin.failbit (cin io) = false ->
  blank (Cin.buffer (cin io)) = false ->
  yes_no_loop fuel response io = yes_no_loop fuel response' io.
Proof.
  intros Hfail Hblank. destruct fuel as [| fuel]; [reflexivity |].
  cbn [yes_no_loop]. unfold CinText.extract_char. rewrite Hfail.
  destruct (skipws_not_blank _ Hblank) as (c & rest & ->). reflexivity.
Qed.

(** X4.  [getYesNoInput] looks at the first character of the line that is
    no white space, whatever follows it on the line: y or Y gives [true],
    n or N gives [false], and the rest of the line is dropped.  After any
    other character it prints "Invalid input. Please enter y or n: ",
    drops the line, and goes on with what follows, [response] holding that
    character in lower case; when something other than white space
    follows, it goes on as if this were the first turn. *)
Theorem yes_no_answer (prompt : string) (fuel : nat)
    (out ws line tail : string) (c : ascii) :
  blank ws = true -> Cin.isspace c = false -> one_line line = true ->
  let io := {| cin := {| Cin.buffer :=
                           (ws ++ String c (line ++ nl ++ tail))%string;
                         Cin.failbit := false |};
               cout := out |} in
  let next (text : string) :=
    {| cin := {| Cin.buffer := tail; Cin.failbit := false |};
       cout := (out ++ prompt ++ " (y/n): " ++ text)%string |} in
  (c = "y"%char \/ c = "Y"%char ->
   getYesNoInput prompt (S fuel) io = Returned (true, next ""%string))
  /\ (c = "n"%char \/ c = "N"%char ->
      getYesNoInput prompt (S fuel) io = Returned (false, next ""%string))
  /\ (c <> "y"%char -> c <> "Y"%char -> c <> "n"%char -> c <> "N"%char ->
      getYesNoInput prompt (S fuel) io
      = yes_no_loop fuel (Some (tolower c)) (next yes_no_invalid)
      /\ (blank tail = false ->
          getYesNoInput prompt (S fuel) io
          = yes_no_loop fuel None (next yes_no_invalid))).
Proof.
  intros Hws Hc Hline io next.
  assert (Hstep := yes_no_loop_line fuel None
                     (out ++ prompt ++ " (y/n): ") ws line tail c
                     Hws Hc Hline).
  unfold getYesNoInput, io, next, put. cbn [cin cout].
  rewrite <- !append_assoc. rewrite <- !append_assoc in Hstep.
  rewrite Hstep. rewrite !append_nil_r.
  split; [| split].
  - intros Hyes%tolower_y. now rewrite Hyes.
  - intros Hno. pose proof (proj2 (tolower_n c) Hno) as Hn.
    destruct (Ascii.eqb (tolower c) "y") eqn:Hy.
    + apply tolower_y in Hy. destruct Hno as [-> | ->], Hy; discriminate.
    + now rewrite Hn.
  - intros H1 H2 H3 H4.
    destruct (Ascii.eqb (tolower c) "y") eqn:Hy;
      [apply tolower_y in Hy; tauto |].
    destruct (Ascii.eqb (tolower c) "n") eqn:Hn;
      [apply tolower_n in Hn; tauto |].
    split; [reflexivity |].
    intros Htail. now apply yes_no_loop_fresh.
Qed.

Lemma yes_no_answer_witness :
  getYesNoInput "Is this a commercial vehicle" 1
    {| cin := {| Cin.buffer := (" Yes, it is" ++ nl ++ "n" ++ nl)%string;
                 Cin.failbit := false |};
       cout := ""%string |}
  = Returned
      (true,
       {| cin := {| Cin.buffer := ("n" ++ nl)%string;
                    Cin.failbit := false |};
          cout := ("" ++ "Is this a commercial vehicle" ++ " (y/n): "
                      ++ "")%string |}).
Proof.
  refine (proj1 (yes_no_answer "Is this a commercial vehicle" 0 ""%string
                   " "%string "es, it is"%string ("n" ++ nl)%string "Y"%char
                   eq_refl eq_refl eq_refl) _).
  now right.
Defined.

(** ** The end of the input *)

Lemma input_loop_blank (rejected : Z -> bool) (msg : string) (fuel : nat) :
  forall io : console,
    blank (Cin.buffer (cin io)) = true ->
    input_loop rejected msg fuel io = None.
Proof.
  induction fuel as [| fuel IH]; intros io Hblank; [reflexivity |].
  cbn [input_loop].
  destruct (extract_int_blank (cin io) Hblank) as (Hnone & _ & Hblank').
  assert (Hnext : input_loop rejected msg fuel (reprompt msg io) = None).
  { apply IH. unfold reprompt, Cin.ignore_line, Cin.clear.
    cbn [cin Cin.failbit Cin.buffer]. now apply blank_drop_line. }
  destruct (Cin.extract_int (cin io)) as [[x |] cin']; [discriminate |].
  exact Hnext.
Qed.

Lemma type_loop_blank (fuel : nat) :
  forall io : console,
    blank (Cin.buffer (cin io)) = true -> type_loop fuel io = None.
Proof.
  induction fuel as [| fuel IH]; intros io Hblank; [reflexivity |].
  rewrite type_loop_step. unfold type_retry, attempt.
  destruct (extract_int_blank (cin io) Hblank) as (Hnone & Hfail & Hblank').
  destruct (Cin.extract_int (cin io)) as [r cin']. cbn [fst snd] in *.
  subst r. rewrite Hfail. cbn [type_of_choice].
  apply IH. unfold put, Cin.ignore_line, Cin.clear.
  cbn [cin Cin.failbit Cin.buffer]. now apply blank_drop_line.
Qed.

Lemma split_line_blank (s : string) :
  blank s = true -> blank (snd (CinText.split_line s)) = true.
Proof.
  induction s as [| c s IH]; [reflexivity |].
  cbn [blank CinText.split_line]. intros [_ Hs]%andb_true_iff.
  destruct (Ascii.eqb c "010"); [exact Hs |].
  specialize (IH Hs). now destruct (CinText.split_line s).
Qed.

Lemma getline_blank (inp : Cin.istream) :
  blank (Cin.buffer inp) = true ->
  blank (Cin.buffer (snd (CinText.getline inp))) = true.
Proof.
  intros Hblank. unfold CinText.getline.
  destruct (Cin.failbit inp); [exact Hblank |].
  destruct (Cin.buffer inp) as [| c s] eqn:Hbuf; [reflexivity |].
  pose proof (split_line_blank _ Hblank) as Htail.
  now destruct (CinText.split_line (String c s)).
Qed.

Lemma main_body_blank (fuel : nat) (system : InsuranceRiskSystem)
    (io : console) :
  blank (Cin.buffer (cin io)) = true -> main_body fuel system io = Pending.
Proof.
  intros Hblank. unfold main_body.
  pose proof (getline_blank (cin (put "Enter vehicle make: " io)) Hblank)
    as Hmake.
  destruct (CinText.getline (cin (put "Enter vehicle make: " io)))
    as [make cin1].
  cbn [snd] in Hmake.
  pose proof (getline_blank
                (cin (put "Enter vehicle model: "
                        {| cin := cin1;
                           cout := cout (put "Enter vehicle make: " io) |}))
                Hmake) as Hmodel.
  destruct (CinText.getline _) as [model cin2]. cbn [snd] in Hmodel.
  unfold read_year. now rewrite input_loop_blank.
Qed.

(** X5.  When the input has come to its end (only white space, or
    nothing, is left), the input loops do not end, whatever the state of
    the stream: the two validating loops and [getVehicleTypeInput] have no
    result for any number of turns, and neither has the loop of
    [getYesNoInput] once an answer has been refused; so [main], which
    begins with the year loop, does not exit at the end of its input.  On
    its first turn, though, [getYesNoInput] then reads [response] before
    anything has been written to it: what it does is undefined. *)
Theorem exhausted_input (io : console) :
  blank (Cin.buffer (cin io)) = true ->
  (forall fuel, read_year fuel io = None)
  /\ (forall fuel, read_accident_count fuel io = None)
  /\ (forall fuel, getVehicleTypeInput fuel io = None)
  /\ (forall fuel c,
        c <> "y"%char -> c <> "Y"%char -> c <> "n"%char -> c <> "N"%char ->
        yes_no_loop fuel (Some c) io = Pending)
  /\ (forall prompt fuel, getYesNoInput prompt (S fuel) io = Undefined)
  /\ (forall turns fuel, main turns fuel io = Pending).
Proof.
  intros Hblank. split; [| split; [| split; [| split; [| split]]]].
  - intros fuel. now apply input_loop_blank.
  - intros fuel. now apply input_loop_blank.
  - intros fuel. now apply type_loop_blank.
  - intros fuel c H1 H2 H3 H4. apply yes_no_loop_exhausted; [exact Hblank | |].
    + destruct (Ascii.eqb (tolower c) "y") eqn:Hy; [| reflexivity].
      apply tolower_y in Hy. tauto.
    + destruct (Ascii.eqb (tolower c) "n") eqn:Hn; [| reflexivity].
      apply tolower_n in Hn. tauto.
  - intros prompt fuel. unfold getYesNoInput. cbn [yes_no_loop].
    destruct (extract_char_blank (cin (put (prompt ++ " (y/n): ") io)) Hblank)
      as (Hnone & _).
    destruct (CinText.extract_char _) as [read cin1]. cbn [fst] in Hnone.
    now subst read.
  - intros [| turns] fuel; [reflexivity |].
    unfold main. cbn [main_loop]. now rewrite main_body_blank.
Qed.

Lemma exhausted_input_witness :
  main 3 5 (typed (nl ++ "  " ++ nl)%string) = Pending.
Proof.
  exact (proj2 (proj2 (proj2 (proj2 (proj2
           (exhausted_input (typed (nl ++ "  " ++ nl)%string) eq_refl)))))
           3%nat 5%nat).
Defined.

(** ** [main] *)

(** One turn of the [do ... while] assesses one validated vehicle. *)
Lemma main_body_assesses (fuel : nat) (system system' : InsuranceRiskSystem)
    (io io' : console) (again : bool) :
  main_body fuel system io = Returned (system', io', again) ->
  exists v,
    validated v
    /\ (getAccidentCount v <= INT_MAX)%Z
    /\ system' = assessVehicleRisk float system v.
Proof.
  unfold main_body.
  destruct (CinText.getline _) as [make cin1].
  destruct (CinText.getline _) as [model cin2].
  destruct (read_year fuel _) as [[year io1] |] eqn:Hyear; [| discriminate].
  destruct (getVehicleTypeInput fuel _) as [[type io2] |]; [| discriminate].
  destruct (read_accident_count fuel _) as [[accidentCount io3] |] eqn:Hacc;
    [| discriminate].
  destruct (getYesNoInput "Is this a commercial vehicle" fuel _)
    as [[isCommercial io4] | |]; [| discriminate | discriminate].
  destruct (getYesNoInput "Do you want to assess another vehicle" fuel _)
    as [[again' io5] | |]; [| discriminate | discriminate].
  intros [= <- _ _].
  exists (mkVehicle make model year type accidentCount isCommercial).
  pose proof (input_loop_sound _ _ _ _ Hyear) as Hy.
  pose proof (input_loop_sound _ _ _ _ Hacc) as Ha.
  apply year_rejected_spec in Hy. apply accident_rejected_spec in Ha.
  destruct (input_loop_int _ _ _ _ _ _ Hacc) as [_ Hmax].
  split; [split; assumption | split; [exact Hmax | reflexivity]].
Qed.

Lemma main_loop_assesses (turns fuel : nat) :
  forall (before : list Vehicle) (system : InsuranceRiskSystem)
         (io io' : console),
    main_loop turns fuel (assessAll float before) io
    = Returned (system, io') ->
    exists vehicles,
      vehicles <> []
      /\ (List.length vehicles <= turns)%nat
      /\ Forall validated vehicles
      /\ Forall (fun v => (getAccidentCount v <= INT_MAX)%Z) vehicles
      /\ system = assessAll float (before ++ vehicles).
Proof.
  induction turns as [| turns IH]; intros before system io io';
    [discriminate |].
  cbn [main_loop].
  destruct (main_body fuel (assessAll float before) io)
    as [[[system1 io1] again] | |] eqn:Hbody; [| discriminate | discriminate].
  destruct (main_body_assesses _ _ _ _ _ _ Hbody) as (v & Hv & Hmax & ->).
  rewrite <- assessAll_snoc.
  destruct again.
  - intros (vehicles & _ & Hlen & Hall & Hmaxs & ->)%IH.
    exists (v :: vehicles). rewrite <- app_assoc.
    repeat split; auto; [discriminate | simpl; lia].
  - intros [= <- _]. exists [v].
    repeat split; auto; [discriminate | simpl; lia].
Qed.

(** X6.  Whatever is typed, [main] assesses validated vehicles only: when
    it returns, its exit code is 0, and the record it has built is the one
    of a session of at least one vehicle, each with a year from 1970 to
    2024 and an accident count from 0 to INT_MAX; so the categories in the
    record are those of numbers, never of a NaN. *)
Theorem main_assesses_validated (turns fuel : nat) (io io' : console)
    (code : Z) (system : InsuranceRiskSystem) :
  main turns fuel io = Returned (code, system, io') ->
  code = 0%Z
  /\ exists vehicles,
       vehicles <> []
       /\ (List.length vehicles <= turns)%nat
       /\ Forall validated vehicles
       /\ Forall (fun v => (getAccidentCount v <= INT_MAX)%Z) vehicles
       /\ Forall (fun v => B64.is_nan (score v) = false) vehicles
       /\ system = assessAll float vehicles.
Proof.
  unfold main.
  destruct (main_loop turns fuel new_system io) as [[system0 io0] | |]
    eqn:Hloop; [| discriminate | discriminate].
  intros [= <- <- _]. split; [reflexivity |].
  destruct (main_loop_assesses turns fuel [] _ _ _ Hloop)
    as (vehicles & Hne & Hlen & Hall & Hmax & ->).
  exists vehicles. repeat split; auto.
  eapply Forall_impl; [| exact Hall].
  intros v Hv. now apply nonneg_not_nan, score_nonneg_binary64.
Qed.

Lemma main_assesses_validated_witness :
  0%Z = 0%Z
  /\ exists vehicles,
       vehicles <> []
       /\ (List.length vehicles <= 2)%nat
       /\ Forall validated vehicles
       /\ Forall (fun v => (getAccidentCount v <= INT_MAX)%Z) vehicles
       /\ Forall (fun v => B64.is_nan (score v) = false) vehicles
       /\ {| riskCategories := [("Ford F150"%string, HIGH)] |}
          = assessAll float vehicles.
Proof.
  refine (main_assesses_validated 2 3
            (typed_lines ["Ford"; "F150"; "abc"; "2014 junk"; "7 2"; "x";
                          "-1"; "2"; "Yes"; "maybe"; "No"]%string)
            _ 0%Z _ _).
  vm_compute. reflexivity.
Defined.

(** ** A session typed as asked *)

Lemma read_year_typed (fuel : nat) (out rest : string) (year : Z) :
  (1970 <= year <= 2024)%Z -> starts_with_digit rest = false ->
  read_year (S fuel)
    {| cin := {| Cin.buffer := (numeral year ++ rest)%string;
                 Cin.failbit := false |};
       cout := out |}
  = Some (year, {| cin := {| Cin.buffer := rest; Cin.failbit := false |};
                   cout := out |}).
Proof.
  intros Hyear Hrest.
  apply (input_loop_accepts year_rejected year_message fuel out ""%string
           rest year eq_refl); auto.
  - unfold int_range, INT_MIN, INT_MAX. lia.
  - now apply year_rejected_spec.
Qed.

Lemma read_accident_count_typed (fuel : nat) (out ws rest : string)
    (accidentCount : Z) :
  blank ws = true ->
  (0 <= accidentCount <= INT_MAX)%Z -> starts_with_digit rest = false ->
  read_accident_count (S fuel)
    {| cin := {| Cin.buffer := (ws ++ numeral accidentCount ++ rest)%string;
                 Cin.failbit := false |};
       cout := out |}
  = Some (accidentCount,
          {| cin := {| Cin.buffer := rest; Cin.failbit := false |};
             cout := out |}).
Proof.
  intros Hws Hacc Hrest.
  apply input_loop_accepts; auto.
  - unfold int_range, INT_MIN, INT_MAX in *. lia.
  - apply accident_rejected_spec. lia.
Qed.

Lemma getVehicleTypeInput_typed (fuel : nat) (out rest : string)
    (t : VehicleType) :
  starts_with_digit rest = false ->
  getVehicleTypeInput (S fuel)
    {| cin := {| Cin.buffer := (numeral (choice t) ++ rest)%string;
                 Cin.failbit := false |};
       cout := out |}
  = Some (t, {| cin := {| Cin.buffer := rest; Cin.failbit := false |};
                cout := (out ++ type_prompt)%string |}).
Proof.
  intros Hrest. unfold getVehicleTypeInput, put. cbn [cin cout].
  exact (type_loop_choice fuel _ ""%string rest t eq_refl Hrest).
Qed.

Lemma getYesNoInput_typed (prompt : string) (fuel : nat)
    (out tail : string) (b : bool) :
  getYesNoInput prompt (S fuel)
    {| cin := {| Cin.buffer := (answer b ++ nl ++ tail)%string;
                 Cin.failbit := false |};
       cout := out |}
  = Returned (b, {| cin := {| Cin.buffer := tail; Cin.failbit := false |};
                cout := (out ++ prompt ++ " (y/n): ")%string |}).
Proof.
  unfold getYesNoInput, put. cbn [cin cout].
  destruct b.
  - now rewrite (yes_no_loop_line fuel None _ ""%string ""%string tail "y"
                   eq_refl eq_refl eq_refl).
  - now rewrite (yes_no_loop_line fuel None _ ""%string ""%string tail "n"
                   eq_refl eq_refl eq_refl).
Qed.

Lemma starts_with_digit_nl (s : string) :
  starts_with_digit (nl ++ s) = false.
Proof. reflexivity. Qed.

Lemma ignore_line_nl (tail : string) :
  Cin.ignore_line {| Cin.buffer := (nl ++ tail)%string;
                     Cin.failbit := false |}
  = {| Cin.buffer := tail; Cin.failbit := false |}.
Proof. reflexivity. Qed.

(** One turn of [main] on the lines of one vehicle. *)
Lemma main_body_typed (fuel : nat) (system : InsuranceRiskSystem)
    (out more : string) (v : Vehicle) (again : bool) :
  typable v ->
  main_body (S fuel) system
    {| cin := {| Cin.buffer := (typed_vehicle v again ++ more)%string;
                 Cin.failbit := false |};
       cout := out |}
  = Returned (assessVehicleRisk float system v,
          {| cin := {| Cin.buffer := more; Cin.failbit := false |};
             cout := (out ++ prompts
                        ++ report (riskCategories
                                     (assessVehicleRisk float system v))
                        ++ "Do you want to assess another vehicle (y/n): "
                        ++ nl)%string |},
          again).
Proof.
  destruct v as [make model year type accidentCount isCommercial].
  intros ((Hyear & Hacc) & Hmax & Hmake & Hmodel).
  cbn [getMake getModel getYear getAccidentCount] in *.
  unfold typed_vehicle.
  cbn [getMake getModel getYear getType getAccidentCount getIsCommercial].
  rewrite !append_assoc.
  unfold main_body. cbv zeta. unfold put at 1. cbn [cin cout].
  rewrite (getline_line _ _ Hmake).
  unfold put at 1. cbn [cin cout].
  rewrite (getline_line _ _ Hmodel).
  unfold put at 1. cbn [cin cout].
  rewrite (read_year_typed fuel _ _ year Hyear (starts_with_digit_nl _)).
  cbn [cin cout]. rewrite ignore_line_nl.
  rewrite (getVehicleTypeInput_typed fuel _ _ type (starts_with_digit_nl _)).
  unfold put at 1. cbn [cin cout].
  rewrite (read_accident_count_typed fuel _ nl _ accidentCount eq_refl
             (conj Hacc Hmax) (starts_with_digit_nl _)).
  cbn [cin cout]. rewrite ignore_line_nl.
  rewrite getYesNoInput_typed.
  cbn [cin cout]. rewrite printRiskAssessment_report.
  rewrite getYesNoInput_typed.
  unfold put. cbn [cin cout].
  assert (Hagain : Ascii.eqb (if again then "y" else "n") "y" = again)
    by now destruct again.
  rewrite Hagain. unfold prompts.
  rewrite !append_assoc. reflexivity.
Qed.

Lemma main_loop_typed (fuel : nat) (vehicles : list Vehicle) :
  forall (system : InsuranceRiskSystem) (out : string),
    vehicles <> [] ->
    Forall typable vehicles ->
    main_loop (List.length vehicles) (S fuel) system
      {| cin := {| Cin.buffer := script vehicles; Cin.failbit := false |};
         cout := out |}
    = Returned (fold_left (assessVehicleRisk float) vehicles system,
            {| cin := {| Cin.buffer := EmptyString; Cin.failbit := false |};
               cout := (out ++ transcript system vehicles)%string |}).
Proof.
  induction vehicles as [| v vehicles IH]; intros system out Hne Hall;
    [contradiction |].
  apply Forall_cons_iff in Hall as [Hv Hall].
  destruct vehicles as [| v' vehicles].
  - cbn [List.length main_loop script].
    rewrite <- (append_nil_r (typed_vehicle v false)).
    rewrite (main_body_typed fuel system out EmptyString v false Hv).
    cbn [fold_left transcript].
    rewrite ?append_nil_r, ?append_assoc. reflexivity.
  - change (script (v :: v' :: vehicles))
      with (typed_vehicle v true ++ script (v' :: vehicles))%string.
    change (List.length (v :: v' :: vehicles))
      with (S (List.length (v' :: vehicles))).
    cbn [main_loop].
    rewrite (main_body_typed fuel system out _ v true Hv).
    rewrite IH by (auto; discriminate).
    change (fold_left (assessVehicleRisk float) (v :: v' :: vehicles) system)
      with (fold_left (assessVehicleRisk float) (v' :: vehicles)
              (assessVehicleRisk float system v)).
    change (transcript system (v :: v' :: vehicles))
      with (prompts
              ++ report (riskCategories (assessVehicleRisk float system v))
              ++ "Do you want to assess another vehicle (y/n): " ++ nl
              ++ transcript (assessVehicleRisk float system v)
                   (v' :: vehicles))%string.
    now rewrite !append_assoc.
Qed.

(** X7.  A session typed as asked: for each vehicle its make, model,
    year, type number, accident count and y or n for commercial, a line
    each, then y to go on or n after the last one.  If every vehicle is
    validated, has an accident count that an [int] holds and a make and a
    model without a newline, [main] reads the whole input, one turn of each
    loop per answer, assesses these vehicles in this order, prints for each
    the prompts and then the report of the whole record so far, and returns
    0. *)
Theorem main_session (fuel : nat) (vehicles : list Vehicle) :
  vehicles <> [] ->
  Forall typable vehicles ->
  main (List.length vehicles) (S fuel) (typed (script vehicles))
  = Returned (0%Z,
          assessAll float vehicles,
          {| cin := {| Cin.buffer := EmptyString; Cin.failbit := false |};
             cout := transcript new_system vehicles |}).
Proof.
  intros Hne Hall. unfold main, typed.
  now rewrite (main_loop_typed fuel vehicles new_system EmptyString Hne Hall).
Qed.

Lemma main_session_witness :
  main 2 1 (typed (script [toyota_corolla; ford_f150]))
  = Returned (0%Z,
          assessAll float [toyota_corolla; ford_f150],
          {| cin := {| Cin.buffer := EmptyString; Cin.failbit := false |};
             cout := transcript new_system [toyota_corolla; ford_f150] |}).
Proof.
  apply (main_session 0 [toyota_corolla; ford_f150]); [discriminate |].
  repeat constructor; unfold INT_MAX; simpl; lia.
Defined.

(** ** More on the record *)

Section RecordFacts.
Context {D : Type} `{DoubleOps D}.
Import StdMap StdMapFacts.

Lemma last_with_id_snoc (id : string) (vehicles : list Vehicle)
    (v : Vehicle) :
  last_with_id id (vehicles ++ [v])
  = if String.eqb (vehicleId v) id then Some v
    else last_with_id id vehicles.
Proof. unfold last_with_id. now rewrite rev_unit. Qed.

Lemma assessAll_find (vehicles : list Vehicle) (id : string) :
  find id (riskCategories (assessAll D vehicles))
  = option_map (category D) (last_with_id id vehicles).
Proof.
  induction vehicles as [| v vehicles IH] using rev_ind; [reflexivity |].
  rewrite assessAll_snoc, assess_categories, last_with_id_snoc.
  destruct (String.eqb_spec (vehicleId v) id) as [<- | Hneq].
  - apply find_upsert_same.
  - rewrite find_upsert_other by congruence. exact IH.
Qed.

Lemma find_Some_In (m : t) (k : string) (v : RiskLevel) :
  find k m = Some v -> In k (keys m).
Proof.
  induction m as [| [k' v'] rest IH]; simpl; [discriminate |].
  destruct (String.eqb_spec k k') as [-> | _]; auto.
Qed.

Lemma find_below (m : t) (k : string) :
  Forall (string_lt k) (keys m) -> find k m = None.
Proof.
  intros Hbelow. destruct (find k m) as [v |] eqn:Hfind; [| reflexivity].
  apply find_Some_In in Hfind. rewrite Forall_forall in Hbelow.
  destruct (string_lt_irrefl (Hbelow _ Hfind)).
Qed.

(** Two ordered maps in which every key is mapped alike are the same
    map. *)
Lemma ordered_ext (m1 : t) :
  forall m2 : t,
    ordered m1 -> ordered m2 ->
    (forall k, find k m1 = find k m2) -> m1 = m2.
Proof.
  unfold ordered.
  induction m1 as [| [k1 v1] r1 IH]; intros [| [k2 v2] r2] Ho1 Ho2 Hfind.
  - reflexivity.
  - specialize (Hfind k2). simpl in Hfind.
    rewrite String.eqb_refl in Hfind. discriminate.
  - specialize (Hfind k1). simpl in Hfind.
    rewrite String.eqb_refl in Hfind. discriminate.
  - simpl in Ho1, Ho2.
    apply StronglySorted_inv in Ho1 as [Hr1 Hh1].
    apply StronglySorted_inv in Ho2 as [Hr2 Hh2].
    assert (Hk : k1 = k2).
    { destruct (k1 ?= k2)%string eqn:Hcmp.
      - now apply string_compare_eq.
      - exfalso. specialize (Hfind k1). simpl in Hfind.
        rewrite String.eqb_refl in Hfind.
        rewrite (string_compare_neq k1 k2) in Hfind by congruence.
        rewrite find_below in Hfind; [discriminate |].
        eapply Forall_impl; [| exact Hh2].
        intros x. now apply string_lt_trans.
      - exfalso. apply string_compare_gt in Hcmp.
        specialize (Hfind k2). simpl in Hfind.
        rewrite String.eqb_refl in Hfind.
        assert (Hne : String.eqb k2 k1 = false).
        { apply String.eqb_neq. intros ->.
          exact (string_lt_irrefl Hcmp). }
        rewrite Hne, find_below in Hfind; [discriminate |].
        eapply Forall_impl; [| exact Hh1].
        intros x. now apply string_lt_trans. }
    subst k2.
    assert (Hv : v1 = v2).
    { specialize (Hfind k1). simpl in Hfind.
      rewrite String.eqb_refl in Hfind. congruence. }
    subst v2. f_equal. apply IH; auto.
    intros k. specialize (Hfind k). simpl in Hfind.
    destruct (String.eqb_spec k k1) as [Heq | _]; [| exact Hfind].
    rewrite Heq. now rewrite !find_below.
Qed.

Lemma upsert_length (m : t) (k : string) (v : RiskLevel) :
  ordered m ->
  List.length (upsert k v m)
  = (List.length m
     + match find k m with Some _ => 0 | None => 1 end)%nat.
Proof.
  unfold ordered.
  induction m as [| [k' v'] rest IH]; simpl; intros Hm; [reflexivity |].
  apply StronglySorted_inv in Hm as [Hrest Hhead].
  destruct (k ?= k')%string eqn:Hcmp; simpl.
  - apply string_compare_eq in Hcmp as ->.
    rewrite String.eqb_refl. lia.
  - rewrite string_compare_neq by congruence.
    rewrite find_below; [lia |].
    eapply Forall_impl; [| exact Hhead].
    intros x. now apply string_lt_trans.
  - rewrite string_compare_neq by congruence.
    rewrite (IH Hrest). lia.
Qed.

End RecordFacts.

(** X8.  What a session leaves under an identifier is the category of the
    last vehicle assessed with that identifier, and nothing if there was
    none. *)
Theorem session_lookup (D : Type) (ops : DoubleOps D)
    (vehicles : list Vehicle) (id : string) :
  StdMap.find id (riskCategories (assessAll D vehicles))
  = match last_with_id id vehicles with
    | Some v => Some (category D v)
    | None => None
    end.
Proof. apply assessAll_find. Qed.

(** X9.  The record depends on the last category under each identifier
    only: two sessions that agree on it end with the same record.  So
    assessments of vehicles with different identifiers can be swapped, an
    assessment that a later one overwrites can be left out, and assessing
    the same vehicle twice is assessing it once. *)
Theorem record_depends_on_last (D : Type) (ops : DoubleOps D)
    (session1 session2 : list Vehicle) :
  (forall id,
      option_map (category D) (last_with_id id session1)
      = option_map (category D) (last_with_id id session2)) ->
  assessAll D session1 = assessAll D session2.
Proof.
  intros Hlast. apply system_eq.
  apply ordered_ext; try apply assessAll_ordered.
  intros k. now rewrite !assessAll_find.
Qed.

Lemma record_depends_on_last_witness :
  assessAll float [ford_f150; toyota_corolla; ford_f150_new; toyota_corolla]
  = assessAll float [toyota_corolla; ford_f150_new].
Proof.
  apply (record_depends_on_last float binary64).
  intros id. unfold last_with_id. cbn [rev app List.find].
  change (vehicleId toyota_corolla) with "Toyota Corolla"%string.
  change (vehicleId ford_f150) with "Ford F150"%string.
  change (vehicleId ford_f150_new) with "Ford F150"%string.
  destruct (String.eqb_spec "Toyota Corolla" id) as [<- | _];
    [reflexivity |].
  destruct (String.eqb "Ford F150" id); reflexivity.
Defined.

(** X10.  In a session, an assessment adds one entry to the record when
    the identifier of the vehicle is not in it yet, and none when it is:
    the number of entries goes up by one or stays. *)
Theorem assessment_growth (D : Type) (ops : DoubleOps D)
    (vehicles : list Vehicle) (v : Vehicle) :
  let system := assessAll D vehicles in
  List.length (riskCategories (assessVehicleRisk D system v))
  = (List.length (riskCategories system)
     + match StdMap.find (vehicleId v) (riskCategories system) with
       | Some _ => 0
       | None => 1
       end)%nat.
Proof.
  intros system. rewrite assess_categories.
  apply upsert_length, assessAll_ordered.
Qed.

(** ** Identifiers *)

Lemma append_space_inj (a1 : string) :
  forall a2 m1 m2 : string,
    no_space a1 = true -> no_space a2 = true ->
    (a1 ++ " " ++ m1)%string = (a2 ++ " " ++ m2)%string ->
    a1 = a2 /\ m1 = m2.
Proof.
  induction a1 as [| c1 a1 IH]; intros [| c2 a2] m1 m2 H1 H2; simpl in *.
  - now intros [= ->].
  - intros [= <- _]. discriminate.
  - intros [= -> _]. discriminate.
  - apply andb_true_iff in H1 as [_ H1]. apply andb_true_iff in H2 as [_ H2].
    intros [= -> Htail]. destruct (IH a2 m1 m2 H1 H2 Htail) as [-> ->].
    now split.
Qed.

(** X11.  The identifier make + " " + model tells make and model apart
    only as long as makes have no space: for such makes equal identifiers
    mean equal makes and equal models, while a make a + " " + b with model
    c has the identifier of the make a with model b + " " + c, so that an
    assessment of the one overwrites the other. *)
Theorem identifier_collisions (D : Type) (ops : DoubleOps D) :
  (forall v1 v2,
      no_space (getMake v1) = true -> no_space (getMake v2) = true ->
      vehicleId v1 = vehicleId v2 ->
      getMake v1 = getMake v2 /\ getModel v1 = getModel v2)
  /\ (forall a b c year1 type1 acc1 comm1 year2 type2 acc2 comm2 system,
        let v1 := mkVehicle (a ++ " " ++ b) c year1 type1 acc1 comm1 in
        let v2 := mkVehicle a (b ++ " " ++ c) year2 type2 acc2 comm2 in
        vehicleId v1 = vehicleId v2
        /\ assessVehicleRisk D (assessVehicleRisk D system v1) v2
           = assessVehicleRisk D system v2).
Proof.
  split.
  - intros v1 v2 H1 H2. unfold vehicleId. now apply append_space_inj.
  - intros a b c year1 type1 acc1 comm1 year2 type2 acc2 comm2 system v1 v2.
    assert (Hid : vehicleId v1 = vehicleId v2).
    { unfold vehicleId, v1, v2. cbn [getMake getModel].
      now rewrite !append_assoc. }
    split; [exact Hid |].
    apply system_eq. rewrite !assess_categories, Hid.
    apply StdMapFacts.upsert_upsert.
Qed.

Lemma identifier_collisions_witness :
  getMake toyota_corolla = getMake (with_type TRUCK toyota_corolla)
  /\ getModel toyota_corolla = getModel (with_type TRUCK toyota_corolla).
Proof.
  apply (proj1 (identifier_collisions float binary64)); reflexivity.
Defined.

(** ** More on the scorer *)

(** X12.  For a validated vehicle with at most a thousand accidents, the
    category computed in binary64 is the category of the exact score: on
    these inputs no rounding error carries a score across 1.2 or 1.8. *)
Theorem rounding_keeps_category (v : Vehicle) :
  validated v -> (getAccidentCount v <= 1000)%Z ->
  category float v = category Q v.
Proof.
  destruct v as [mk md year t acc comm]. unfold validated.
  cbn [getYear getAccidentCount].
  intros [Hyear Hacc] Hacc'.
  apply RiskLevel_eqb_eq.
  change (same_category comm year acc = true).
  revert year Hyear.
  apply (year_cases (fun year => same_category comm year acc)).
  assert (Hz : (0 <= acc < 0 + Z.of_nat 1001)%Z) by lia.
  clear Hacc Hacc'. revert acc Hz.
  apply (@range_cases 0%Z 1001%nat
           (fun acc =>
              forallb (fun year => same_category comm year acc)
                (map (fun k => (1970 + Z.of_nat k)%Z) (seq 0 55)))).
  destruct comm; vm_compute; reflexivity.
Qed.

Lemma rounding_keeps_category_witness :
  category float ford_f150 = category Q ford_f150.
Proof.
  apply (rounding_keeps_category ford_f150);
    unfold validated; simpl; lia.
Defined.

(** X13.  Without accidents the year and the flag decide.  A validated
    non-commercial vehicle is LOW from 2015 on, MEDIUM from 2000 to 2014
    and HIGH up to 1999; a commercial one is MEDIUM from 2015 on and HIGH
    up to 2014, and never LOW.  This holds in binary64, and in exact
    arithmetic, where the scores of 2014 and 1999 are the thresholds
    themselves. *)
Theorem clean_vehicle_bands (v : Vehicle) :
  validated v -> getAccidentCount v = 0%Z ->
  category float v = clean_band (getIsCommercial v) (getYear v)
  /\ category Q v = clean_band (getIsCommercial v) (getYear v).
Proof.
  destruct v as [mk md year t acc comm]. unfold validated.
  cbn [getYear getAccidentCount getIsCommercial].
  intros [Hyear _] ->.
  assert (Hok : clean_band_ok comm year = true).
  { revert year Hyear. destruct comm; apply year_cases;
      vm_compute; reflexivity. }
  apply andb_true_iff in Hok as [Hfloat Hexact].
  split; now apply RiskLevel_eqb_eq.
Qed.

Lemma clean_vehicle_bands_witness :
  category float toyota_corolla = LOW /\ category Q toyota_corolla = LOW.
Proof.
  apply (clean_vehicle_bands toyota_corolla);
    [unfold validated; simpl; lia | reflexivity].
Defined.

(** *** Years after 2024 *)

Lemma SFmul_neg (x y : spec_float) :
  sf_neg_finite x = true -> sf_nonneg y -> sf_signed true (SF64mul x y).
Proof.
  destruct x as [| | | [] mx ex]; try discriminate. intros _.
  destruct y as [[] | [] | | [] my ey]; try (simpl; tauto);
    try (intros _; reflexivity).
  intros _. unfold SF64mul, SFmul.
  apply binary_round_aux_signed. lia.
Qed.

Lemma SFltb_neg (x : spec_float) (m0 : positive) (e0 : Z) :
  sf_signed true x -> SFltb x (S754_finite false m0 e0) = true.
Proof.
  destruct x as [s | s | | s m e]; simpl; try tauto; now intros ->.
Qed.

Lemma SFleb_neg_zero (x : spec_float) :
  sf_signed true x -> SFleb x (S754_zero false) = true.
Proof.
  destruct x as [s | s | | s m e]; simpl; try tauto; now intros ->.
Qed.

Lemma risk_after_age_neg (comm : bool) (year : Z) :
  (2045 <= year <= 2144)%Z ->
  sf_neg_finite (Prim2SF (risk_after_age comm year)) = true.
Proof.
  intros Hyear.
  apply (@range_cases 2045%Z 100%nat
           (fun year => sf_neg_finite (Prim2SF (risk_after_age comm year))));
    [| lia].
  destruct comm; vm_compute; reflexivity.
Qed.

Lemma score_future_binary64 (v : Vehicle) :
  (2045 <= getYear v <= 2144)%Z -> (0 <= getAccidentCount v)%Z ->
  sf_signed true (Prim2SF (score (D:=float) v)).
Proof.
  intros Hyear Hacc.
  change (score v)
    with (risk_after_age (getIsCommercial v) (getYear v)
          * accidentFactor (D:=float) v)%float.
  rewrite FloatAxioms.mul_spec. apply SFmul_neg.
  - now apply risk_after_age_neg.
  - now apply accidentFactor_nonneg.
Qed.

Lemma score_future_exact (v : Vehicle) :
  (2045 <= getYear v <= 2144)%Z -> (0 <= getAccidentCount v)%Z ->
  (score (D:=Q) v <= 0)%Q.
Proof.
  intros Hyear Hacc.
  rewrite score_unfold, applyModifiers_factors.
  unfold ageFactor, accidentFactor, CarRiskCalculator.calculateBaseRisk,
    CarRiskCalculator.BASE_RISK.
  assert (Hsub : int_sub 2024 (getYear v) = (2024 - getYear v)%Z).
  { unfold int_sub. apply int_wrap_id.
    unfold int_range, INT_MIN, INT_MAX. lia. }
  rewrite Hsub. cbn [dmul dadd of_int dec exact].
  set (k := (2024 - getYear v)%Z).
  assert (Hk : (inject_Z k <= inject_Z (-21))%Q)
    by (rewrite <- Zle_Qle; unfold k; lia).
  assert (Hn : (inject_Z 0 <= inject_Z (getAccidentCount v))%Q)
    by now rewrite <- Zle_Qle.
  change (inject_Z (-21)) with (-21 # 1)%Q in Hk.
  change (inject_Z 0) with 0%Q in Hn.
  set (x := inject_Z k) in *. set (n := inject_Z (getAccidentCount v)) in *.
  assert (Hbase : (0 <= 0.8 * (if getIsCommercial v then 1.5 else 1.0))%Q)
    by (destruct (getIsCommercial v); discriminate).
  set (b := (0.8 * (if getIsCommercial v then 1.5 else 1.0))%Q) in *.
  assert (Hage : (1.0 + x * 0.05 <= 0)%Q) by lra.
  assert (Hfac : (0 <= 1.0 + n * 0.15)%Q) by lra.
  set (a := (1.0 + x * 0.05)%Q) in *. set (f := (1.0 + n * 0.15)%Q) in *.
  assert (Hba : (b * a <= 0)%Q).
  { rewrite Qmult_comm.
    setoid_replace 0%Q with (0 * b)%Q by ring.
    now apply Qmult_le_compat_r. }
  setoid_replace 0%Q with (0 * f)%Q by ring.
  now apply Qmult_le_compat_r.
Qed.

(** X14.  The calculator itself has no guard on the year: for a vehicle
    of a year from 2045 to 2144, which [main] would refuse, whatever the
    number of accidents (at least 0) and the flag, the score is not above
    0 and the category is LOW, in binary64 as in exact arithmetic. *)
Theorem future_year_is_low (v : Vehicle) :
  (2045 <= getYear v <= 2144)%Z -> (0 <= getAccidentCount v)%Z ->
  (calculateTotalRisk (RiskCalculatorFactory.createCalculator v) <=? 0)%float
  = true
  /\ category float v = LOW
  /\ (calculateTotalRisk (RiskCalculatorFactory.createCalculator (D:=Q) v)
      <= 0)%Q
  /\ category Q v = LOW.
Proof.
  intros Hyear Hacc.
  pose proof (score_future_binary64 v Hyear Hacc) as Hneg.
  pose proof (score_future_exact v Hyear Hacc) as Hexact.
  split; [| split; [| split]].
  - change (calculateTotalRisk (RiskCalculatorFactory.createCalculator v))
      with (score (D:=float) v).
    rewrite FloatAxioms.leb_spec.
    change (Prim2SF 0) with (S754_zero false).
    now apply SFleb_neg_zero.
  - unfold category, categorizeRisk.
    change (calculateTotalRisk (RiskCalculatorFactory.createCalculator v))
      with (score (D:=float) v).
    cbn [dltb dec binary64].
    rewrite FloatAxioms.ltb_spec, threshold_low.
    now rewrite (SFltb_neg _ _ _ Hneg).
  - exact Hexact.
  - unfold category, categorizeRisk.
    change (calculateTotalRisk (RiskCalculatorFactory.createCalculator v))
      with (score (D:=Q) v).
    cbn [dltb dec exact].
    assert (Hlow : Exact.ltb (score v) 1.2 = true)
      by (apply exact_ltb_spec; lra).
    now rewrite Hlow.
Qed.

Lemma future_year_is_low_witness :
  category float (mkVehicle "DeLorean" "DMC-12" 2085 CAR 150 true) = LOW.
Proof.
  apply (future_year_is_low (mkVehicle "DeLorean" "DMC-12" 2085 CAR 150 true));
    simpl; lia.
Defined.

(** ** Lines typed loosely *)

Lemma starts_with_digit_line (line s : string) :
  starts_with_digit line = false ->
  starts_with_digit (line ++ nl ++ s) = false.
Proof. now destruct line. Qed.

Lemma starts_with_digit_blank (ws s : string) :
  blank ws = true -> ws <> EmptyString ->
  starts_with_digit (ws ++ s) = false.
Proof.
  destruct ws as [| c ws]; [contradiction |].
  cbn [blank]. intros [Hc _]%andb_true_iff _. simpl.
  destruct (Cin.digit c) eqn:Hd; [| reflexivity].
  now rewrite (digit_not_space _ _ Hd) in Hc.
Qed.

Lemma getYesNoInput_line (prompt : string) (fuel : nat)
    (out line tail : string) (b : bool) :
  one_line line = true ->
  getYesNoInput prompt (S fuel)
    {| cin := {| Cin.buffer := (answer b ++ line ++ nl ++ tail)%string;
                 Cin.failbit := false |};
       cout := out |}
  = Returned (b, {| cin := {| Cin.buffer := tail; Cin.failbit := false |};
                cout := (out ++ prompt ++ " (y/n): ")%string |}).
Proof.
  intros Hline. unfold getYesNoInput, put. cbn [cin cout].
  destruct b.
  - now rewrite (yes_no_loop_line fuel None _ ""%string line tail "y"
                   eq_refl eq_refl Hline).
  - now rewrite (yes_no_loop_line fuel None _ ""%string line tail "n"
                   eq_refl eq_refl Hline).
Qed.

Lemma main_body_loosely (fuel : nat) (system : InsuranceRiskSystem)
    (out more : string) (v : Vehicle) (again : bool)
    (after_year sep after_count after_commercial after_again : string) :
  typable v ->
  one_line after_year = true -> starts_with_digit after_year = false ->
  blank sep = true -> sep <> EmptyString ->
  one_line after_count = true -> starts_with_digit after_count = false ->
  one_line after_commercial = true ->
  one_line after_again = true ->
  main_body (S fuel) system
    {| cin := {| Cin.buffer :=
                   (typed_loosely v again after_year sep after_count
                      after_commercial after_again ++ more)%string;
                 Cin.failbit := false |};
       cout := out |}
  = Returned (assessVehicleRisk float system v,
          {| cin := {| Cin.buffer := more; Cin.failbit := false |};
             cout := (out ++ prompts
                        ++ report (riskCategories
                                     (assessVehicleRisk float system v))
                        ++ "Do you want to assess another vehicle (y/n): "
                        ++ nl)%string |},
          again).
Proof.
  destruct v as [make model year type accidentCount isCommercial].
  intros ((Hyear & Hacc) & Hmax & Hmake & Hmodel)
    Hy1 Hy2 Hsep1 Hsep2 Hc1 Hc2 Hcomm Hagain.
  cbn [getMake getModel getYear getAccidentCount] in *.
  unfold typed_loosely.
  cbn [getMake getModel getYear getType getAccidentCount getIsCommercial].
  rewrite !append_assoc.
  unfold main_body. cbv zeta. unfold put at 1. cbn [cin cout].
  rewrite (getline_line _ _ Hmake).
  unfold put at 1. cbn [cin cout].
  rewrite (getline_line _ _ Hmodel).
  unfold put at 1. cbn [cin cout].
  rewrite (read_year_typed fuel _ _ year Hyear
             (starts_with_digit_line _ _ Hy2)).
  cbn [cin cout]. rewrite (ignore_line_line _ _ Hy1).
  rewrite (getVehicleTypeInput_typed fuel _ _ type
             (starts_with_digit_blank _ _ Hsep1 Hsep2)).
  unfold put at 1. cbn [cin cout].
  rewrite (read_accident_count_typed fuel _ sep _ accidentCount Hsep1
             (conj Hacc Hmax) (starts_with_digit_line _ _ Hc2)).
  cbn [cin cout]. rewrite (ignore_line_line _ _ Hc1).
  rewrite (getYesNoInput_line _ fuel _ _ _ _ Hcomm).
  cbn [cin cout]. rewrite printRiskAssessment_report.
  rewrite (getYesNoInput_line _ fuel _ _ _ _ Hagain).
  unfold put. cbn [cin cout].
  assert (Hy : Ascii.eqb (if again then "y" else "n") "y" = again)
    by now destruct again.
  rewrite Hy. unfold prompts.
  rewrite !append_assoc. reflexivity.
Qed.

(** X15.  One turn of [main] takes its answers from looser lines too, and
    goes exactly as on lines typed as asked.  What follows the year on its
    line is dropped, and so is what follows the accident count and each of
    the two answers (only the first letter of "yes" or "no" counts).  The
    rest of the line of the type number is not dropped: an accident count
    typed there, after some white space, is taken, although the prompt for
    it comes only afterwards. *)
Theorem main_body_lenient (fuel : nat) (system : InsuranceRiskSystem)
    (out more : string) (v : Vehicle) (again : bool)
    (after_year sep after_count after_commercial after_again : string) :
  typable v ->
  one_line after_year = true -> starts_with_digit after_year = false ->
  blank sep = true -> sep <> EmptyString ->
  one_line after_count = true -> starts_with_digit after_count = false ->
  one_line after_commercial = true ->
  one_line after_again = true ->
  main_body (S fuel) system
    {| cin := {| Cin.buffer :=
                   (typed_loosely v again after_year sep after_count
                      after_commercial after_again ++ more)%string;
                 Cin.failbit := false |};
       cout := out |}
  = main_body (S fuel) system
      {| cin := {| Cin.buffer := (typed_vehicle v again ++ more)%string;
                   Cin.failbit := false |};
         cout := out |}.
Proof.
  intros Hv Hy1 Hy2 Hsep1 Hsep2 Hc1 Hc2 Hcomm Hagain.
  rewrite (main_body_typed fuel system out more v again Hv).
  now apply main_body_loosely.
Qed.

Lemma main_body_lenient_witness :
  main_body 1 new_system
    (typed_lines ["Ford"; "F150"; "2014 or so"; "2 2 accidents";
                  "yes"; "no thanks"]%string)
  = main_body 1 new_system
      (typed_lines ["Ford"; "F150"; "2014"; "2"; "2"; "y"; "n"]%string).
Proof.
  refine (main_body_lenient 0 new_system ""%string ""%string ford_f150 false
            " or so"%string " "%string " accidents"%string "es"%string
            "o thanks"%string _ eq_refl eq_refl eq_refl _ eq_refl eq_refl
            eq_refl eq_refl).
  - repeat split; unfold INT_MAX; simpl; lia.
  - discriminate.
Defined.

(** ** The categorizer and the order of the scores *)

Lemma SFleb_ltb_trans (x y : spec_float) (m0 : positive) (e0 : Z) :
  SFleb x y = true ->
  SFltb y (S754_finite false m0 e0) = true ->
  SFltb x (S754_finite false m0 e0) = true.
Proof.
  unfold SFleb, SFltb.
  destruct x as [[] | [] | | [] mx ex], y as [[] | [] | | [] my ey];
    simpl; try congruence.
  change (Pos.compare_cont Eq mx my) with (Pos.compare mx my).
  change (Pos.compare_cont Eq my m0) with (Pos.compare my m0).
  change (Pos.compare_cont Eq mx m0) with (Pos.compare mx m0).
  destruct (Z.compare_spec ex ey) as [-> | Hlt | Hgt]; try congruence.
  - destruct (Pos.compare_spec mx my) as [-> | Hm | Hm]; try congruence;
      intros _.
    destruct (Z.compare_spec ey e0) as [-> | Hlt | Hgt]; try congruence.
    destruct (Pos.compare_spec my m0) as [-> | Hm0 | Hm0]; try congruence.
    intros _. rewrite (proj2 (Pos.compare_lt_iff mx m0)); [reflexivity | lia].
  - intros _.
    destruct (Z.compare_spec ey e0) as [-> | Hlt0 | Hgt0]; try congruence.
    + intros _. rewrite (proj2 (Z.compare_lt_iff ex e0)); [reflexivity | lia].
    + intros _. rewrite (proj2 (Z.compare_lt_iff ex e0)); [reflexivity | lia].
Qed.

(** X16.  The categorizer follows the order of the scores: of two scores
    the higher one, or an equal one, never gets the lower category.  (In
    binary64 two scores are in order only if neither is a NaN.) *)
Theorem categorizer_monotone :
  (forall s1 s2 : float,
      (s1 <=? s2)%float = true ->
      level_le (categorizeRisk s1) (categorizeRisk s2) = true)
  /\ (forall q1 q2 : Q,
        (q1 <= q2)%Q ->
        level_le (categorizeRisk q1) (categorizeRisk q2) = true).
Proof.
  split.
  - intros s1 s2 Hle. rewrite FloatAxioms.leb_spec in Hle.
    unfold categorizeRisk. cbn [dltb dec binary64].
    rewrite !FloatAxioms.ltb_spec, threshold_low, threshold_high.
    pose proof (SFleb_ltb_trans _ _ 5404319552844595 (-52) Hle) as Hlow.
    pose proof (SFleb_ltb_trans _ _ 8106479329266893 (-52) Hle) as Hhigh.
    destruct (SFltb (Prim2SF s2) (S754_finite false 5404319552844595 (-52)));
      [now rewrite Hlow |].
    destruct (SFltb (Prim2SF s2) (S754_finite false 8106479329266893 (-52)));
      [rewrite Hhigh by reflexivity |].
    + now destruct (SFltb (Prim2SF s1) _).
    + now destruct (SFltb (Prim2SF s1) _), (SFltb (Prim2SF s1) _).
  - intros q1 q2 Hle. unfold categorizeRisk. cbn [dltb dec exact].
    pose proof (exact_ltb_spec q1 1.2) as H1low.
    pose proof (exact_ltb_spec q1 1.8) as H1high.
    pose proof (exact_ltb_spec q2 1.2) as H2low.
    pose proof (exact_ltb_spec q2 1.8) as H2high.
    destruct (Exact.ltb q1 1.2), (Exact.ltb q1 1.8),
      (Exact.ltb q2 1.2), (Exact.ltb q2 1.8);
      try reflexivity; exfalso;
      repeat match goal with
        | Hb : true = true <-> _ |- _ =>
            apply proj1 in Hb; specialize (Hb eq_refl)
        | Hb : false = true <-> ?P |- _ =>
            assert (~ P) by (intros Hp; apply Hb in Hp; discriminate Hp);
            clear Hb
        end;
      lra.
Qed.

Lemma categorizer_monotone_witness :
  level_le (categorizeRisk (score (D:=float) toyota_corolla))
           (categorizeRisk (score (D:=float) ford_f150)) = true.
Proof.
  apply (proj1 categorizer_monotone). reflexivity.
Defined.
